(** * WhatsApp-Telegram forwarder: contact resolution, message processing
      and bot commands of [main.py], embedded and verified.

    Python [str] values are sequences of Unicode code points; they are
    modelled as lists of code points ([N]), so that [len], slicing and the
    character classes of [re] count what Python counts. *)

From Stdlib Require Import ZArith NArith Ascii String List Lia.
From Stdlib Require Import DecimalN DecimalPos.
From stdpp Require Import gmap list.

Local Open Scope N_scope.

(** ** Strings *)

Abbreviation str := (list N).

(** An ASCII literal of the source, as code points. *)
Definition lit (s : string) : str :=
  map N_of_ascii (list_ascii_of_string s).


Definition in_range (lo hi c : N) : bool := (lo <=? c) && (c <=? hi).

(** [str.isspace] per character, which is also what [\s] matches in a [str]
    pattern and what [str.strip()] removes (CPython 3.11, Unicode 14.0). *)
Definition space_ranges : list (N * N) :=
  [ (0x09, 0x0d); (0x1c, 0x20); (0x85, 0x85); (0xa0, 0xa0); (0x1680, 0x1680);
    (0x2000, 0x200a); (0x2028, 0x2029); (0x202f, 0x202f); (0x205f, 0x205f);
    (0x3000, 0x3000) ].

Definition isspace (c : N) : bool :=
  existsb (fun r => in_range (fst r) (snd r) c) space_ranges.

(** [\d] in a [str] pattern is any Unicode decimal digit (category Nd), not
    only 0-9.  Every run of Nd is ten consecutive code points; the table lists
    the zero of each run (CPython 3.11, Unicode 14.0). *)
Definition decimal_zeros : list N :=
  [ 0x30; 0x660; 0x6f0; 0x7c0; 0x966; 0x9e6; 0xa66; 0xae6; 0xb66; 0xbe6;
    0xc66; 0xce6; 0xd66; 0xde6; 0xe50; 0xed0; 0xf20; 0x1040; 0x1090; 0x17e0;
    0x1810; 0x1946; 0x19d0; 0x1a80; 0x1a90; 0x1b50; 0x1bb0; 0x1c40; 0x1c50;
    0xa620; 0xa8d0; 0xa900; 0xa9d0; 0xa9f0; 0xaa50; 0xabf0; 0xff10; 0x104a0;
    0x10d30; 0x11066; 0x110f0; 0x11136; 0x111d0; 0x112f0; 0x11450; 0x114d0;
    0x11650; 0x116c0; 0x11730; 0x118e0; 0x11950; 0x11c50; 0x11d50; 0x11da0;
    0x16a60; 0x16ac0; 0x16b50;
    0x1d7ce; 0x1d7d8; 0x1d7e2; 0x1d7ec; 0x1d7f6;
    0x1e140; 0x1e2f0; 0x1e950; 0x1fbf0 ].

Definition isdecimal (c : N) : bool :=
  existsb (fun z => in_range z (z + 9) c) decimal_zeros.

(** [s.startswith(p)] *)
Fixpoint startswith (p s : str) : bool :=
  match p, s with
  | [], _ => true
  | _ :: _, [] => false
  | a :: p', b :: s' => (a =? b) && startswith p' s'
  end.

(** [s.replace(old, new)] for a non-empty [old]: occurrences are found left
    to right and do not overlap.  [skip] counts the characters of an
    occurrence that are still to be passed over. *)
Fixpoint replace_scan (old new : str) (skip : nat) (s : str) : str :=
  match s with
  | [] => []
  | c :: s' =>
      match skip with
      | S k => replace_scan old new k s'
      | O =>
          if startswith old s
          then new ++ replace_scan old new (Nat.pred (length old)) s'
          else c :: replace_scan old new O s'
      end
  end.

(** [s.replace(old, new)]; with an empty [old] Python puts [new] before every
    character and at the end. *)
Definition str_replace (old new s : str) : str :=
  match old with
  | [] => new ++ concat (map (fun c => c :: new) s)
  | _ :: _ => replace_scan old new O s
  end.

Fixpoint lstrip (s : str) : str :=
  match s with
  | c :: s' => if isspace c then lstrip s' else s
  | [] => []
  end.

Definition rstrip (s : str) : str := rev (lstrip (rev s)).

(** [s.strip()] *)
Definition strip (s : str) : str := rstrip (lstrip s).

(** [needle in s] for strings. *)
Fixpoint contains (needle s : str) : bool :=
  startswith needle s ||
  match s with
  | [] => false
  | _ :: s' => contains needle s'
  end.

(** [str(n)] for an integer: decimal digits, a minus sign when negative. *)
Fixpoint uint_chars (d : Decimal.uint) : str :=
  match d with
  | Decimal.Nil => []
  | Decimal.D0 d => 48 :: uint_chars d
  | Decimal.D1 d => 49 :: uint_chars d
  | Decimal.D2 d => 50 :: uint_chars d
  | Decimal.D3 d => 51 :: uint_chars d
  | Decimal.D4 d => 52 :: uint_chars d
  | Decimal.D5 d => 53 :: uint_chars d
  | Decimal.D6 d => 54 :: uint_chars d
  | Decimal.D7 d => 55 :: uint_chars d
  | Decimal.D8 d => 56 :: uint_chars d
  | Decimal.D9 d => 57 :: uint_chars d
  end.

Definition str_of_N (n : N) : str := uint_chars (N.to_uint n).

Definition str_of_Z (z : Z) : str :=
  match z with
  | Zneg p => 45 :: str_of_N (Npos p)
  | _ => str_of_N (Z.to_N z)
  end.

(** [s[i:j]] with Python's treatment of negative and out-of-range bounds. *)
Definition clamp_index (len i : Z) : Z :=
  if (i <? 0)%Z then Z.max 0 (i + len) else Z.min i len.

Definition py_slice {A} (s : list A) (i j : Z) : list A :=
  let len := Z.of_nat (length s) in
  let a := clamp_index len i in
  let b := clamp_index len j in
  take (Z.to_nat (b - a)) (drop (Z.to_nat a) s).

(** [s[-n:]]: the last [n] items (all of [s] when it has fewer). *)
Definition last_n {A} (n : nat) (s : list A) : list A :=
  drop (length s - n)%nat s.

(** ** The regular expression of [get_contact_info]

    [re.search] is a backtracking matcher.  The pattern of the source is a
    sequence of greedy bounded repetitions of one-character classes, so the
    engine is modelled for such patterns: an atom [c{lo,hi}] first takes as
    many characters as it can (at most [hi]) and gives them back one at a
    time, down to [lo], until the rest of the pattern matches. *)

Record atom := Atom { cls : N -> bool; lo : nat; hi : nat }.

(** The number of leading characters of [s] in class [p], at most [n]. *)
Fixpoint span (p : N -> bool) (n : nat) (s : str) : nat :=
  match n, s with
  | S n', c :: s' => if p c then S (span p n' s') else O
  | _, _ => O
  end.

(** Try [n], [n-1], ..., [lo] repetitions; [k] matches the rest of the
    pattern and returns the length it consumed. *)
Fixpoint backtrack (k : str -> option nat) (lo : nat) (s : str) (n : nat)
  : option nat :=
  if (n <? lo)%nat then None
  else match k (drop n s) with
       | Some l => Some (n + l)%nat
       | None =>
           match n with
           | O => None
           | S n' => backtrack k lo s n'
           end
       end.

(** The length of the match of [atoms] anchored at the start of [s]. *)
Fixpoint match_here (atoms : list atom) (s : str) : option nat :=
  match atoms with
  | [] => Some O
  | a :: rest =>
      backtrack (match_here rest) (lo a) s (span (cls a) (hi a) s)
  end.

(** [re.search]: the first start position, scanning left to right, at which
    the pattern matches; the result is the span [(start, end)]. *)
Fixpoint search_from (atoms : list atom) (i : nat) (s : str)
  : option (nat * nat) :=
  match match_here atoms s with
  | Some l => Some (i, (i + l)%nat)
  | None =>
      match s with
      | [] => None
      | _ :: s' => search_from atoms (S i) s'
      end
  end.

Definition re_search (atoms : list atom) (s : str) : option (nat * nat) :=
  search_from atoms O s.

Definition plus_sign : N := 43.
Definition hyphen : N := 45.
Definition blank : N := 32.
Definition lparen : N := 40.
Definition rparen : N := 41.
Definition newline : N := 10.

(** [phone_pattern = r'\+(\d{1,3}[\s-]?\d{4,14})'] *)
Definition phone_pattern : list atom :=
  [ Atom (N.eqb plus_sign) 1 1;
    Atom isdecimal 1 3;
    Atom (fun c => isspace c || (c =? hyphen)) 0 1;
    Atom isdecimal 4 14 ].

(** [m.group(0)]: the whole match. *)
Definition group0 (s : str) (m : nat * nat) : str :=
  take (snd m - fst m)%nat (drop (fst m) s).

(** [m.group(1)]: the parenthesis of the pattern opens right after the [+],
    which is always exactly one character, and closes at the end. *)
Definition group1 (s : str) (m : nat * nat) : str :=
  take (snd m - S (fst m))%nat (drop (S (fst m)) s).


(** [os.path.splitext(p)[1]] (POSIX): the extension starts at the last dot
    of the last path component, unless that component has only leading
    dots before it. *)
Fixpoint rfind_from (c : N) (s : str) (i last : Z) : Z :=
  match s with
  | [] => last
  | x :: s' => rfind_from c s' (i + 1)%Z (if x =? c then i else last)
  end.

(** [s.rfind(c)] for a one-character [c]; [-1] when absent. *)
Definition rfind (c : N) (s : str) : Z := rfind_from c s 0%Z (-1)%Z.

Definition splitext_ext (p : str) : str :=
  let sepIndex := rfind 47 p in
  let dotIndex := rfind 46 p in
  if (sepIndex <? dotIndex)%Z
  then
    if forallb (N.eqb 46) (py_slice p (sepIndex + 1) dotIndex)
    then []
    else py_slice p dotIndex (Z.of_nat (length p))
  else [].


(** ** Data model *)

(** [contact_info]: the dict built by [get_contact_info]. *)
Module Contact.
Record t := Make { display_name : str; phone_number : str; id : str }.
End Contact.

(** An entry of [self.message_history[contact_id]]. *)
Module Message.
Record t := Make {
  id : str; text : str; direction : str; timestamp : str; chat : str }.
End Message.

(** [message_data]: a dict in which any key may be missing ([None] here);
    [process_message] reads it with [.get(key, default)]. *)
Module Observation.
Record t := Make {
  id : option str;
  sender : option str;
  text : option str;
  chat : option str;
  is_outgoing : option bool;
  has_media : option bool;
  media_url : option str;
  timestamp : option str }.
End Observation.

(** Python dicts keep insertion order, and the command handlers iterate
    [self.contacts] in that order: an association list with unique keys. *)
Fixpoint dict_get {V} (k : str) (d : list (str * V)) : option V :=
  match d with
  | [] => None
  | (k', v) :: d' => if decide (k' = k) then Some v else dict_get k d'
  end.

(** [d[k] = v]: in place for a key already present, else at the end. *)
Fixpoint dict_set {V} (k : str) (v : V) (d : list (str * V)) : list (str * V) :=
  match d with
  | [] => [(k, v)]
  | (k', v') :: d' =>
      if decide (k' = k) then (k, v) :: d' else (k', v') :: dict_set k v d'
  end.

Inductive exn :=
| KeyError (key : str)
| ValueError (msg : str)
| External (msg : str).

(** [str(e)], as the f-strings of the log calls render an exception. *)
Definition exn_str (e : exn) : str :=
  match e with
  | KeyError k => lit "'" ++ k ++ lit "'"
  | ValueError m => m
  | External m => m
  end.

Inductive result (A : Type) :=
| Ok (a : A)
| Raise (e : exn).
Arguments Ok {A} a.
Arguments Raise {A} e.

(** Calls made on [self.telegram_client]. *)
Inductive telegram_call :=
| SendMessage (chat_id : Z) (body : str)
| SendFile (chat_id : Z) (path caption : str).

Inductive level := INFO | ERROR.

(** The instance fields of [WhatsAppTelegramForwarder] that the processor
    and the handlers use, with what they act on outside the object: the files
    of the working directory, the calls on the Telegram client, the log
    records and the replies given through [event.respond]. *)
Record world := World {
  contacts : list (str * Contact.t);
  message_history : gmap str (list Message.t);
  chat_groups : gmap str (list str);
  active_chats : list str;
  files : gset str;
  telegram : list telegram_call;
  log : list (level * str);
  replies : list str }.

(** The state of a forwarder that [__init__] has just built. *)
Definition init_world (fs : gset str) : world :=
  World [] ∅ ∅ [] fs [] [] [].

(** Configuration read from the process environment by [__init__]. *)
Record config := Config {
  telegram_chat_id : Z;
  max_message_length : Z }.

(** What the collaborators answer during one call of [process_message]: the
    clock, and for every call that leaves the process either its result or
    the exception it raises (an [Exception] of aiohttp, the OS or Telethon). *)
Record env := Env {
  now_isoformat : str;
  now_timestamp : Z;
  import_aiohttp : result unit;
  session_get : result Z;
  open_wb : result unit;
  write_chunks : result unit;
  send_file : result unit;
  os_remove : result unit;
  send_message : result unit }.

(** ** State and exception monad *)

Definition M (A : Type) : Type := world -> result A * world.

Definition ret {A} (a : A) : M A := fun w => (Ok a, w).

Definition bind {A B} (c : M A) (k : A -> M B) : M B :=
  fun w =>
    match c w with
    | (Ok a, w') => k a w'
    | (Raise e, w') => (Raise e, w')
    end.

Notation "'let*' x := c 'in' k" := (bind c (fun x => k))
  (at level 10, x name, c at level 100, k at level 200).
Notation "c ;;; k" := (bind c (fun _ => k))
  (at level 100, k at level 200, right associativity).

(** [try: c except Exception as e: h e] *)
Definition try_except {A} (c : M A) (h : exn -> M A) : M A :=
  fun w =>
    match c w with
    | (Ok a, w') => (Ok a, w')
    | (Raise e, w') => h e w'
    end.

Definition modify (f : world -> world) : M unit := fun w => (Ok tt, f w).

(** A call whose outcome the environment decides. *)
Definition outcome {A} (r : result A) : M A := fun w => (r, w).

Definition set_contacts (v : list (str * Contact.t)) (w : world) : world :=
  World v (message_history w) (chat_groups w) (active_chats w) (files w)
        (telegram w) (log w) (replies w).
Definition set_message_history (v : gmap str (list Message.t)) (w : world) : world :=
  World (contacts w) v (chat_groups w) (active_chats w) (files w)
        (telegram w) (log w) (replies w).
Definition set_chat_groups (v : gmap str (list str)) (w : world) : world :=
  World (contacts w) (message_history w) v (active_chats w) (files w)
        (telegram w) (log w) (replies w).
Definition set_active_chats (v : list str) (w : world) : world :=
  World (contacts w) (message_history w) (chat_groups w) v (files w)
        (telegram w) (log w) (replies w).
Definition set_files (v : gset str) (w : world) : world :=
  World (contacts w) (message_history w) (chat_groups w) (active_chats w) v
        (telegram w) (log w) (replies w).
Definition set_telegram (v : list telegram_call) (w : world) : world :=
  World (contacts w) (message_history w) (chat_groups w) (active_chats w)
        (files w) v (log w) (replies w).
Definition set_log (v : list (level * str)) (w : world) : world :=
  World (contacts w) (message_history w) (chat_groups w) (active_chats w)
        (files w) (telegram w) v (replies w).
Definition set_replies (v : list str) (w : world) : world :=
  World (contacts w) (message_history w) (chat_groups w) (active_chats w)
        (files w) (telegram w) (log w) v.

(** [logger.info] / [logger.error] *)
Definition logger (l : level) (msg : str) : M unit :=
  modify (fun w => set_log (log w ++ [(l, msg)]) w).

(** [await event.respond(body)] *)
Definition respond (body : str) : M unit :=
  modify (fun w => set_replies (replies w ++ [body]) w).

(** [d.setdefault(k, []).append(x)], the idiom of lines 331-333 and 342-344. *)
Definition append_at {V} (k : str) (x : V) (d : gmap str (list V))
  : gmap str (list V) :=
  <[k := default [] (d !! k) ++ [x]]> d.

Definition get : M world := fun w => (Ok w, w).

Definition raise {A} (e : exn) : M A := fun w => (Raise e, w).

(** ** [get_contact_info] (lines 402-432) *)

Definition get_contact_info (sender : str) : M Contact.t :=
  let* w := get in
  match dict_get sender (contacts w) with
  | Some contact_info => ret contact_info
  | None =>
      let phone_match := re_search phone_pattern sender in
      let names :=
        match phone_match with
        | Some m =>
            let phone_number :=
              str_replace (lit "-") [] (str_replace (lit " ") [] (group1 sender m)) in
            let display_name :=
              strip (str_replace (lit "(" ++ group0 sender m ++ lit ")") [] sender) in
            (if decide (display_name = []) then sender else display_name,
             phone_number)
        | None =>
            (sender,
             lit "unknown_" ++ str_of_N (N.of_nat (length (contacts w)) + 1))
        end in
      let contact_info := Contact.Make (fst names) (snd names) (snd names) in
      modify (fun w => set_contacts (dict_set sender contact_info (contacts w)) w) ;;;
      ret contact_info
  end.

(** ** [download_and_send_media] (lines 360-400) *)

Definition contact_line (contact_info : Contact.t) : str :=
  [0x1f464] ++ lit " Contact: " ++ Contact.display_name contact_info
  ++ lit " (" ++ Contact.phone_number contact_info ++ lit ")".

Definition download_and_send_media (cfg : config) (e : env)
    (media_url : str) (contact_info : Contact.t)
    (direction chat_title timestamp : str) : M unit :=
  try_except
    (outcome (import_aiohttp e) ;;;
     let ext := splitext_ext media_url in
     let temp_filename :=
       lit "temp_media_" ++ str_of_Z (now_timestamp e) ++ ext in
     let* status := outcome (session_get e) in
     if (status =? 200)%Z then
       outcome (open_wb e) ;;;
       modify (fun w => set_files ({[temp_filename]} ∪ files w) w) ;;;
       outcome (write_chunks e) ;;;
       let caption :=
         direction ++ lit " WhatsApp Media" ++ [newline]
         ++ contact_line contact_info ++ [newline]
         ++ [0x1f4ac] ++ lit " Chat: " ++ chat_title ++ [newline]
         ++ [0x1f552] ++ lit " Time: " ++ timestamp in
       modify (fun w =>
         set_telegram
           (telegram w ++ [SendFile (telegram_chat_id cfg) temp_filename caption]) w) ;;;
       outcome (send_file e) ;;;
       logger INFO (lit "Media forwarded to Telegram: " ++ direction ++ lit " - "
                    ++ Contact.display_name contact_info) ;;;
       outcome (os_remove e) ;;;
       modify (fun w => set_files (files w ∖ {[temp_filename]}) w)
     else
       logger ERROR (lit "Failed to download media: HTTP " ++ str_of_Z status))
    (fun x =>
       logger ERROR (lit "Error downloading and sending media: " ++ exn_str x)).

(** ** [process_message] (lines 288-358) *)

(** Truth value of an optional string: [None] and [''] are false. *)
Definition truthy (s : option str) : bool :=
  match s with
  | Some (_ :: _) => true
  | _ => false
  end.

Definition direction_of (is_outgoing : bool) : str :=
  if is_outgoing then [0x1f4e4] ++ lit " Sent" else [0x1f4e5] ++ lit " Received".

Definition format_message (direction : str) (contact_info : Contact.t)
    (chat_title text timestamp : str) : str :=
  direction ++ lit " WhatsApp Message" ++ [newline]
  ++ contact_line contact_info ++ [newline]
  ++ [0x1f4ac] ++ lit " Chat: " ++ chat_title ++ [newline]
  ++ [0x1f4dd] ++ lit " Message: " ++ text ++ [newline]
  ++ [0x1f552] ++ lit " Time: " ++ timestamp.

Definition message_record (message_id text : str) (is_outgoing : bool)
    (timestamp chat_title : str) : Message.t :=
  Message.Make message_id text
    (if is_outgoing then lit "outgoing" else lit "incoming")
    timestamp chat_title.

Definition process_message (cfg : config) (e : env)
    (message_data : Observation.t) : M unit :=
  let message_id := default [] (Observation.id message_data) in
  let sender := default (lit "Unknown") (Observation.sender message_data) in
  let text := default [] (Observation.text message_data) in
  let chat_title := default (lit "Unknown Chat") (Observation.chat message_data) in
  let is_outgoing := default false (Observation.is_outgoing message_data) in
  let has_media := default false (Observation.has_media message_data) in
  let media_url := Observation.media_url message_data in
  let timestamp := default (now_isoformat e) (Observation.timestamp message_data) in
  let* contact_info := get_contact_info sender in
  let direction := direction_of is_outgoing in
  (if has_media && truthy media_url then
     try_except
       (download_and_send_media cfg e (default [] media_url) contact_info
          direction chat_title timestamp)
       (fun x => logger ERROR (lit "Error processing media message: " ++ exn_str x))
   else ret tt) ;;;
  match text with
  | [] => ret tt
  | _ :: _ =>
      let formatted_msg :=
        format_message direction contact_info chat_title text timestamp in
      let cid := Contact.id contact_info in
      modify (fun w =>
        set_message_history
          (append_at cid
             (message_record message_id text is_outgoing timestamp chat_title)
             (message_history w)) w) ;;;
      modify (fun w =>
        set_chat_groups (append_at cid formatted_msg (chat_groups w)) w) ;;;
      modify (fun w =>
        if decide (cid ∈ active_chats w) then w
        else set_active_chats (active_chats w ++ [cid]) w) ;;;
      try_except
        (modify (fun w =>
           set_telegram
             (telegram w ++ [SendMessage (telegram_chat_id cfg) formatted_msg]) w) ;;;
         outcome (send_message e) ;;;
         logger INFO (lit "Message forwarded to Telegram: " ++ direction
                      ++ lit " - " ++ sender ++ lit " - "
                      ++ py_slice text 0 50 ++ lit "..."))
        (fun x =>
           logger ERROR (lit "Error forwarding message to Telegram: " ++ exn_str x))
  end.

(** ** Command handlers of [handle_telegram_commands] *)

(** What [self.contacts.get(contact_id, {'display_name': contact_id})] gives:
    a stored contact, or the default dict, which has the single key
    ['display_name']. *)
Inductive contact_view :=
| Stored (c : Contact.t)
| DisplayNameOnly (name : str).

(** [contact_info['display_name']] *)
Definition getitem_display_name (v : contact_view) : M str :=
  match v with
  | Stored c => ret (Contact.display_name c)
  | DisplayNameOnly name => ret name
  end.

(** [contact_info['phone_number']] *)
Definition getitem_phone_number (v : contact_view) : M str :=
  match v with
  | Stored c => ret (Contact.phone_number c)
  | DisplayNameOnly _ => raise (KeyError (lit "phone_number"))
  end.

(** The loop of [chats_handler] (lines 470-472); [i] is the counter of
    [enumerate(..., 1)]. *)
Fixpoint chats_loop (i : N) (ids : list str) (chat_list : str) : M str :=
  match ids with
  | [] => ret chat_list
  | contact_id :: rest =>
      let* w := get in
      let contact_info :=
        match dict_get contact_id (contacts w) with
        | Some c => Stored c
        | None => DisplayNameOnly contact_id
        end in
      let* name := getitem_display_name contact_info in
      let* phone := getitem_phone_number contact_info in
      chats_loop (i + 1) rest
        (chat_list ++ str_of_N i ++ lit ". " ++ name
         ++ lit " (" ++ phone ++ lit ")" ++ [newline])
  end.

(** [chats_handler] (lines 463-474) *)
Definition chats_handler : M unit :=
  let* w := get in
  match active_chats w with
  | [] => respond (lit "No active chats yet.")
  | _ :: _ =>
      let* chat_list :=
        chats_loop 1 (last_n 10 (active_chats w)) (lit "Recent Chats:" ++ [newline]) in
      respond chat_list
  end.

(** [range(start, stop, step)] as a list; a zero step raises [ValueError]. *)
Definition py_range (start stop step : Z) : result (list Z) :=
  if (step =? 0)%Z then Raise (ValueError (lit "range() arg 3 must not be zero"))
  else
    let n :=
      if (0 <? step)%Z then ((stop - start + step - 1) / step)%Z
      else ((start - stop - step - 1) / (- step))%Z in
    Ok (map (fun k => (start + Z.of_nat k * step)%Z) (seq 0 (Z.to_nat n))).

Fixpoint respond_all (chunks : list str) : M unit :=
  match chunks with
  | [] => ret tt
  | chunk :: rest => respond chunk ;;; respond_all rest
  end.

(** Lines 530-537 of [history_handler]: the reply, split when it is longer
    than [self.max_message_length]. *)
Definition respond_split (cfg : config) (history_text : str) : M unit :=
  let len := Z.of_nat (length history_text) in
  let n := max_message_length cfg in
  if (n <? len)%Z then
    let* starts := outcome (py_range 0 len n) in
    let chunks := map (fun i => py_slice history_text i (i + n)) starts in
    respond_all chunks
  else respond history_text.

(** The text that [history_handler] builds (lines 523-528). *)
Definition history_line (msg : Message.t) : str :=
  (if decide (Message.direction msg = lit "outgoing")
   then [0x1f4e4] else [0x1f4e5])
  ++ lit " " ++ Message.text msg ++ lit " (" ++ Message.timestamp msg ++ lit ")"
  ++ [newline; newline].

Definition history_text_of (display_name : str) (messages : list Message.t) : str :=
  fold_left (fun acc msg => acc ++ history_line msg) messages
    (lit "Last 10 messages with " ++ display_name ++ lit ":" ++ [newline; newline]).

Section Handlers.

(** [str.lower], which follows the case mappings of the interpreter's
    Unicode database. *)
Variable lower : str -> str.

(** The search loop of [history_handler] (lines 511-516): the key of the
    first contact, in insertion order, that the query matches. *)
Fixpoint find_target (contact_name : str) (items : list (str * Contact.t))
  : option str :=
  match items with
  | [] => None
  | (contact_id, contact_info) :: rest =>
      if contains (lower contact_name) (lower (Contact.display_name contact_info))
         || contains contact_name (Contact.phone_number contact_info)
      then Some contact_id
      else find_target contact_name rest
  end.

(** [history_handler] (lines 506-537); [contact_name] is
    [event.pattern_match.group(1)]. *)
Definition history_handler (cfg : config) (contact_name : str) : M unit :=
  let* w := get in
  let target_contact_id := find_target contact_name (contacts w) in
  match target_contact_id with
  | Some (c :: k) =>
      let key := c :: k in
      match message_history w !! key with
      | Some history =>
          let messages := last_n 10 history in
          match dict_get key (contacts w) with
          | Some contact_info =>
              respond_split cfg
                (history_text_of (Contact.display_name contact_info) messages)
          | None => raise (KeyError key)
          end
      | None => respond (lit "No message history found for: " ++ contact_name)
      end
  | _ => respond (lit "No message history found for: " ++ contact_name)
  end.

End Handlers.

(** [str.lower] on ASCII text: A-Z become a-z. *)
Definition ascii_lower (s : str) : str :=
  map (fun c => if in_range 65 90 c then c + 32 else c) s.

(** ** The other command handlers *)

(** The loop of [contacts_handler] and of the result of [search_handler]
    (lines 483-484 and 499-500): one numbered line per contact; [i] is the
    counter of [enumerate(..., 1)]. *)
Fixpoint numbered_lines (i : N) (items : list Contact.t) (acc : str) : str :=
  match items with
  | [] => acc
  | contact_info :: rest =>
      numbered_lines (i + 1) rest
        (acc ++ str_of_N i ++ lit ". " ++ Contact.display_name contact_info
         ++ lit " (" ++ Contact.phone_number contact_info ++ lit ")"
         ++ [newline])
  end.

(** [contacts_handler] (lines 476-486); the loop goes over
    [self.contacts.items()] and uses the values only. *)
Definition contacts_handler : M unit :=
  let* w := get in
  match contacts w with
  | [] => respond (lit "No contacts yet.")
  | _ :: _ =>
      respond (numbered_lines 1 (map snd (contacts w))
                 (lit "All Contacts:" ++ [newline]))
  end.

(** [sum(len(msgs) for msgs in self.message_history.values())] *)
Definition messages_processed (h : gmap str (list Message.t)) : nat :=
  map_fold (fun _ msgs total => (total + length msgs)%nat) O h.

(** [stats_handler] (lines 539-548).  [page] is the truth value of
    [hasattr(self, 'page') and self.page], a field that only the browser
    layer sets. *)
Definition stats_text (active contacts_count messages : nat) (page : bool) : str :=
  [0x1f4ca] ++ lit " WhatsApp-Telegram Forwarder Stats:" ++ [newline]
  ++ lit "Active Chats: " ++ str_of_N (N.of_nat active) ++ [newline]
  ++ lit "Total Contacts: " ++ str_of_N (N.of_nat contacts_count) ++ [newline]
  ++ lit "Messages Processed: " ++ str_of_N (N.of_nat messages) ++ [newline]
  ++ lit "Status: "
  ++ (if page then [0x2705] ++ lit " Active" else [0x274c] ++ lit " Not Connected").

Definition stats_handler (page : bool) : M unit :=
  let* w := get in
  respond (stats_text (length (active_chats w)) (length (contacts w))
             (messages_processed (message_history w)) page).

Section Search.

(** [str.lower], as in [history_handler]. *)
Variable lower : str -> str.

(** The first loop of [search_handler] (lines 493-495). *)
Fixpoint search_matches (name : str) (items : list (str * Contact.t))
    (matching_contacts : list Contact.t) : list Contact.t :=
  match items with
  | [] => matching_contacts
  | (_, contact_info) :: rest =>
      if contains name (lower (Contact.display_name contact_info))
         || contains name (Contact.phone_number contact_info)
      then search_matches name rest (matching_contacts ++ [contact_info])
      else search_matches name rest matching_contacts
  end.

(** [search_handler] (lines 488-504); [query] is
    [event.pattern_match.group(1)]. *)
Definition search_handler (query : str) : M unit :=
  let name := lower query in
  let* w := get in
  let matching_contacts := search_matches name (contacts w) [] in
  let result :=
    match matching_contacts with
    | _ :: _ =>
        numbered_lines 1 matching_contacts
          (lit "Found " ++ str_of_N (N.of_nat (length matching_contacts))
           ++ lit " contact(s) matching '" ++ name ++ lit "':" ++ [newline])
    | [] => lit "No contacts found matching '" ++ name ++ lit "'"
    end in
  respond result.

End Search.

(** ** Runs of the forwarder *)

(** The world after a computation, and its result. *)
Definition exec {A} (c : M A) (w : world) : world := snd (c w).
Definition eval {A} (c : M A) (w : world) : result A := fst (c w).

(** One call that can change the tracked state: an observation processed, or
    a sender resolved. *)
Inductive step (cfg : config) : world -> world -> Prop :=
| step_process e message_data w :
    step cfg w (exec (process_message cfg e message_data) w)
| step_resolve sender w :
    step cfg w (exec (get_contact_info sender) w).

(** The states of a run: those reached from a new forwarder. *)
Inductive reachable (cfg : config) : world -> Prop :=
| reachable_init fs : reachable cfg (init_world fs)
| reachable_step w w' : reachable cfg w -> step cfg w w' -> reachable cfg w'.

(** * Verification *)

(** ** Decimal rendering is injective *)

Lemma uint_chars_inj d d' : uint_chars d = uint_chars d' -> d = d'.
Proof.
  revert d'. induction d; intros [] H; simpl in H;
    try discriminate; try reflexivity; f_equal; apply IHd; congruence.
Qed.

Lemma str_of_N_inj n m : str_of_N n = str_of_N m -> n = m.
Proof.
  unfold str_of_N. intros H%uint_chars_inj.
  rewrite <- (DecimalN.Unsigned.of_to n), <- (DecimalN.Unsigned.of_to m).
  by rewrite H.
Qed.

(** ** The model on sample inputs *)

Example search_alice :
  re_search phone_pattern (lit "Alice (+1 5550100)") = Some (7, 17)%nat.
Proof. vm_compute. reflexivity. Qed.

Example search_alice_hyphenated :
  re_search phone_pattern (lit "Alice (+1 555-0100)") = None.
Proof. vm_compute. reflexivity. Qed.

Example search_backtracks :
  re_search phone_pattern (lit "+12345-6789") = Some (0, 6)%nat.
Proof. vm_compute. reflexivity. Qed.

Example search_greedy :
  re_search phone_pattern (lit "+123456789012345678901") = Some (0, 18)%nat.
Proof. vm_compute. reflexivity. Qed.

Example splitext_jpg :
  splitext_ext (lit "https://cdn.example/media/a.b/photo.jpg") = lit ".jpg".
Proof. vm_compute. reflexivity. Qed.

Example splitext_hidden : splitext_ext (lit "dir/.bashrc") = [].
Proof. vm_compute. reflexivity. Qed.

(** Literals and rendered numbers stay folded during symbolic execution. *)
Opaque lit str_of_N str_of_Z.

(** ** Dictionaries *)

Section Dict.
Context {V : Type}.
Implicit Types (d : list (str * V)) (k : str) (v : V).

Lemma dict_get_app k d d' :
  dict_get k (d ++ d') =
  match dict_get k d with Some v => Some v | None => dict_get k d' end.
Proof.
  induction d as [|[k' v'] d IH]; simpl; [done|].
  destruct (decide (k' = k)); [done|apply IH].
Qed.

Lemma dict_set_fresh k v d :
  dict_get k d = None -> dict_set k v d = d ++ [(k, v)].
Proof.
  induction d as [|[k' v'] d IH]; simpl; [done|].
  destruct (decide (k' = k)); [done|].
  intros H. by rewrite IH.
Qed.

Lemma dict_get_None k d : dict_get k d = None <-> k ∉ d.*1.
Proof.
  induction d as [|[k' v'] d IH]; simpl.
  - split; [intros _; apply not_elem_of_nil|done].
  - destruct (decide (k' = k)) as [->|Hne].
    + split; [done|]. intros H. exfalso. apply H. left.
    + rewrite IH, not_elem_of_cons.
      split; [intros ?; split; [congruence|done]|by intros [_ ?]].
Qed.

Lemma dict_get_Some_lookup k v d :
  dict_get k d = Some v -> exists i, d !! i = Some (k, v).
Proof.
  induction d as [|[k' v'] d IH]; simpl; [done|].
  destruct (decide (k' = k)) as [->|Hne].
  - intros [= ->]. by exists O.
  - intros H. destruct (IH H) as [i Hi]. by exists (S i).
Qed.

Lemma dict_get_lookup_nodup k v d i :
  NoDup d.*1 -> d !! i = Some (k, v) -> dict_get k d = Some v.
Proof.
  revert i. induction d as [|[k' v'] d IH]; intros i Hnd Hi; [done|].
  simpl in *. apply NoDup_cons in Hnd as [Hnotin Hnd].
  destruct i as [|i]; simpl in Hi.
  - simplify_eq. by rewrite decide_True.
  - destruct (decide (k' = k)) as [->|Hne]; [|by eapply IH].
    exfalso. apply Hnotin. apply list_elem_of_fmap.
    exists (k, v). split; [done|]. by eapply list_elem_of_lookup_2.
Qed.
End Dict.

(** ** The monad *)

Lemma bind_ok {A B} (c : M A) (k : A -> M B) w a w' :
  c w = (Ok a, w') -> bind c k w = k a w'.
Proof. unfold bind. by intros ->. Qed.

Lemma set_contacts_id w : set_contacts (contacts w) w = w.
Proof. by destruct w. Qed.

(** ** Contact resolution *)

(** The contact that [get_contact_info] builds for [sender] when the cache
    holds [count] contacts and none for [sender]. *)
Definition fresh_contact (sender : str) (count : nat) : Contact.t :=
  match re_search phone_pattern sender with
  | Some m =>
      let phone_number :=
        str_replace (lit "-") [] (str_replace (lit " ") [] (group1 sender m)) in
      let display_name :=
        strip (str_replace (lit "(" ++ group0 sender m ++ lit ")") [] sender) in
      Contact.Make (if decide (display_name = []) then sender else display_name)
        phone_number phone_number
  | None =>
      let phone_number := lit "unknown_" ++ str_of_N (N.of_nat count + 1) in
      Contact.Make sender phone_number phone_number
  end.

(** The contact that a call of [get_contact_info] returns in [w]. *)
Definition resolved (sender : str) (w : world) : Contact.t :=
  match dict_get sender (contacts w) with
  | Some c => c
  | None => fresh_contact sender (length (contacts w))
  end.

Lemma get_contact_info_hit sender w c :
  dict_get sender (contacts w) = Some c ->
  get_contact_info sender w = (Ok c, w).
Proof. intros H. unfold get_contact_info, bind, get. simpl. by rewrite H. Qed.

Lemma get_contact_info_miss sender w :
  dict_get sender (contacts w) = None ->
  get_contact_info sender w =
  (Ok (fresh_contact sender (length (contacts w))),
   set_contacts (contacts w ++ [(sender, fresh_contact sender (length (contacts w)))]) w).
Proof.
  intros H. unfold get_contact_info, bind, get, modify, ret, fresh_contact.
  simpl. rewrite H.
  destruct (re_search phone_pattern sender) as [m|]; simpl;
    by rewrite dict_set_fresh.
Qed.

Lemma get_contact_info_resolved sender w :
  eval (get_contact_info sender) w = Ok (resolved sender w).
Proof.
  unfold eval, resolved.
  destruct (dict_get sender (contacts w)) as [c|] eqn:H.
  - by rewrite (get_contact_info_hit _ _ c).
  - by rewrite get_contact_info_miss.
Qed.

Lemma get_contact_info_cached sender w :
  dict_get sender (contacts (exec (get_contact_info sender) w))
  = Some (resolved sender w).
Proof.
  unfold exec, resolved.
  destruct (dict_get sender (contacts w)) as [c|] eqn:H.
  - by rewrite (get_contact_info_hit _ _ c).
  - rewrite get_contact_info_miss by done. simpl.
    rewrite dict_get_app, H. simpl. by rewrite decide_True.
Qed.

(** [get_contact_info] touches nothing but the cache, which only grows. *)
Lemma get_contact_info_frame sender w :
  let w' := exec (get_contact_info sender) w in
  message_history w' = message_history w /\ chat_groups w' = chat_groups w /\
  active_chats w' = active_chats w /\ files w' = files w /\
  telegram w' = telegram w /\ log w' = log w /\ replies w' = replies w /\
  exists new, contacts w' = contacts w ++ new.
Proof.
  unfold exec.
  destruct (dict_get sender (contacts w)) as [c|] eqn:H.
  - rewrite (get_contact_info_hit _ _ c) by done. simpl.
    repeat split; try done. exists []. by rewrite app_nil_r.
  - rewrite get_contact_info_miss by done. simpl.
    repeat split; try done. by eexists.
Qed.

(** ** The media pipeline never raises and leaves the tracked data alone *)

(** The components that [process_message] records: cache, history, formatted
    messages and active chats. *)
Definition same_data (w w' : world) : Prop :=
  contacts w' = contacts w /\ message_history w' = message_history w /\
  chat_groups w' = chat_groups w /\ active_chats w' = active_chats w /\
  replies w' = replies w.

Ltac run_monad :=
  unfold bind, try_except, outcome, modify, logger, respond, ret, raise, get;
  simpl.

Lemma download_and_send_media_total cfg e url c dir chat ts w :
  eval (download_and_send_media cfg e url c dir chat ts) w = Ok tt /\
  same_data w (exec (download_and_send_media cfg e url c dir chat ts) w).
Proof.
  unfold eval, exec, download_and_send_media, same_data. run_monad.
  destruct (import_aiohttp e) as [[]|x0]; simpl; [|done].
  destruct (session_get e) as [status|x1]; simpl; [|done].
  destruct (status =? 200)%Z; simpl; [|done].
  destruct (open_wb e) as [[]|x2]; simpl; [|done].
  destruct (write_chunks e) as [[]|x3]; simpl; [|done].
  destruct (send_file e) as [[]|x4]; simpl; [|done].
  destruct (os_remove e) as [[]|x5]; simpl; done.
Qed.

(** The media stage of [process_message] (lines 306-317). *)
Definition media_stage (cfg : config) (e : env) (message_data : Observation.t)
    (contact_info : Contact.t) : M unit :=
  if default false (Observation.has_media message_data)
     && truthy (Observation.media_url message_data)
  then
    try_except
      (download_and_send_media cfg e
         (default [] (Observation.media_url message_data)) contact_info
         (direction_of (default false (Observation.is_outgoing message_data)))
         (default (lit "Unknown Chat") (Observation.chat message_data))
         (default (now_isoformat e) (Observation.timestamp message_data)))
      (fun x => logger ERROR (lit "Error processing media message: " ++ exn_str x))
  else ret tt.

Lemma media_stage_total cfg e message_data c w :
  eval (media_stage cfg e message_data c) w = Ok tt /\
  same_data w (exec (media_stage cfg e message_data c) w).
Proof.
  unfold media_stage.
  destruct (_ && _); [|by repeat split].
  match goal with
  | |- context [download_and_send_media ?a ?b ?c ?d ?e ?f ?g] =>
      pose proof (download_and_send_media_total a b c d e f g w) as [Hok Hsame]
  end.
  unfold eval, exec, try_except in *.
  destruct (download_and_send_media _ _ _ _ _ _ _ w) as [[[]|x] w']; simpl in *;
    [done|discriminate].
Qed.

(** What an observation adds to the tracked data once its contact is known
    (lines 330-348); nothing when the text is empty. *)
Definition record_text (message_data : Observation.t) (e : env)
    (contact_info : Contact.t) (w : world) : world :=
  let message_id := default [] (Observation.id message_data) in
  let text := default [] (Observation.text message_data) in
  let chat_title := default (lit "Unknown Chat") (Observation.chat message_data) in
  let is_outgoing := default false (Observation.is_outgoing message_data) in
  let timestamp := default (now_isoformat e) (Observation.timestamp message_data) in
  let cid := Contact.id contact_info in
  match text with
  | [] => w
  | _ :: _ =>
      let w1 :=
        set_message_history
          (append_at cid
             (message_record message_id text is_outgoing timestamp chat_title)
             (message_history w)) w in
      let w2 :=
        set_chat_groups
          (append_at cid
             (format_message (direction_of is_outgoing) contact_info chat_title
                text timestamp)
             (chat_groups w1)) w1 in
      if decide (cid ∈ active_chats w2) then w2
      else set_active_chats (active_chats w2 ++ [cid]) w2
  end.

(** [process_message] always returns, whatever the collaborators do, and its
    effect on the tracked data is that of resolving the sender and then
    recording the text. *)
Lemma process_message_run cfg e message_data w :
  let sender := default (lit "Unknown") (Observation.sender message_data) in
  let w1 := exec (get_contact_info sender) w in
  exists w',
    process_message cfg e message_data w = (Ok tt, w') /\
    same_data (record_text message_data e (resolved sender w) w1) w'.
Proof.
  intros sender w1.
  pose proof (get_contact_info_resolved sender w) as Hres.
  unfold eval, exec in *. subst w1. unfold process_message.
  fold sender.
  destruct (get_contact_info sender w) as [r w1] eqn:Hg. simpl in Hres. subst r.
  rewrite (bind_ok _ _ _ _ _ Hg).
  change (if default false (Observation.has_media message_data)
             && truthy (Observation.media_url message_data) then _ else ret tt)
    with (media_stage cfg e message_data (resolved sender w)).
  pose proof (media_stage_total cfg e message_data (resolved sender w) w1)
    as [Hok (Hc & Hh & Hg' & Ha & Hr)].
  unfold eval, exec in *.
  destruct (media_stage cfg e message_data (resolved sender w) w1) as [r w2] eqn:Hm.
  simpl in *. subst r. rewrite (bind_ok _ _ _ _ _ Hm).
  unfold record_text, same_data.
  destruct (default [] (Observation.text message_data)) as [|t text].
  { exists w2. by simpl. }
  run_monad. rewrite Hh, Hg', Ha.
  destruct (decide (Contact.id (resolved sender w) ∈ active_chats w1));
    destruct (send_message e) as [[]|x]; simpl; eexists; (split; [done|]);
    simpl; done.
Qed.

Lemma process_message_data cfg e message_data w :
  let sender := default (lit "Unknown") (Observation.sender message_data) in
  eval (process_message cfg e message_data) w = Ok tt /\
  same_data
    (record_text message_data e (resolved sender w)
       (exec (get_contact_info sender) w))
    (exec (process_message cfg e message_data) w).
Proof.
  destruct (process_message_run cfg e message_data w) as (w' & Hrun & Hsame).
  unfold eval, exec. rewrite Hrun. by simpl.
Qed.

(** ** Invariants of a run *)

(** Keys of the cache are distinct, the contact stored at position [i] is the
    one built when the cache held [i] contacts, and no contact id occurs twice
    among the active chats. *)
Record inv (w : world) : Prop := Inv {
  inv_keys : NoDup (contacts w).*1;
  inv_built : forall i sender c,
    contacts w !! i = Some (sender, c) -> c = fresh_contact sender i;
  inv_active : NoDup (active_chats w) }.

Lemma inv_init fs : inv (init_world fs).
Proof.
  split; simpl.
  - constructor.
  - intros i sender c H. by rewrite lookup_nil in H.
  - constructor.
Qed.

Lemma inv_get_contact_info sender w :
  inv w -> inv (exec (get_contact_info sender) w).
Proof.
  intros [Hk Hb Ha]. unfold exec.
  destruct (dict_get sender (contacts w)) as [c|] eqn:H.
  - rewrite (get_contact_info_hit _ _ c) by done. by split.
  - rewrite get_contact_info_miss by done. split; simpl; [| |done].
    + rewrite fmap_app. apply NoDup_app. split; [done|]. split.
      * intros k Hin Hin'. apply list_elem_of_singleton in Hin'. subst k.
        by apply dict_get_None in H.
      * apply NoDup_singleton.
    + intros i s c Hi.
      destruct (decide (i < length (contacts w))%nat) as [Hlt|Hge].
      * rewrite lookup_app_l in Hi by done. by eapply Hb.
      * rewrite lookup_app_r in Hi by lia.
        destruct (i - length (contacts w))%nat as [|j] eqn:Hj; simpl in Hi;
          [|by rewrite lookup_nil in Hi].
        simplify_eq. f_equal. lia.
Qed.

Lemma record_text_frame message_data e c w :
  let w' := record_text message_data e c w in
  contacts w' = contacts w /\ files w' = files w /\
  telegram w' = telegram w /\ log w' = log w /\ replies w' = replies w.
Proof.
  unfold record_text.
  destruct (default [] (Observation.text message_data)); [done|].
  simpl. by destruct (decide _).
Qed.

Lemma record_text_active message_data e c w :
  active_chats (record_text message_data e c w) =
  active_chats w ++
  match default [] (Observation.text message_data) with
  | [] => []
  | _ :: _ => if decide (Contact.id c ∈ active_chats w) then [] else [Contact.id c]
  end.
Proof.
  unfold record_text.
  destruct (default [] (Observation.text message_data)); simpl;
    [by rewrite app_nil_r|].
  destruct (decide _); simpl; [by rewrite app_nil_r|done].
Qed.

Lemma record_text_history message_data e c w :
  message_history (record_text message_data e c w) =
  match default [] (Observation.text message_data) with
  | [] => message_history w
  | text =>
      append_at (Contact.id c)
        (message_record (default [] (Observation.id message_data)) text
           (default false (Observation.is_outgoing message_data))
           (default (now_isoformat e) (Observation.timestamp message_data))
           (default (lit "Unknown Chat") (Observation.chat message_data)))
        (message_history w)
  end.
Proof.
  unfold record_text.
  destruct (default [] (Observation.text message_data)); [done|].
  simpl. by destruct (decide _).
Qed.

Lemma process_message_contacts cfg e message_data w :
  contacts (exec (process_message cfg e message_data) w) =
  contacts (exec (get_contact_info
                    (default (lit "Unknown") (Observation.sender message_data))) w).
Proof.
  destruct (process_message_data cfg e message_data w) as [_ (Hc & _)].
  rewrite Hc. apply record_text_frame.
Qed.

Lemma process_message_active cfg e message_data w :
  let sender := default (lit "Unknown") (Observation.sender message_data) in
  active_chats (exec (process_message cfg e message_data) w) =
  active_chats w ++
  match default [] (Observation.text message_data) with
  | [] => []
  | _ :: _ =>
      if decide (Contact.id (resolved sender w) ∈ active_chats w) then []
      else [Contact.id (resolved sender w)]
  end.
Proof.
  intros sender.
  destruct (process_message_data cfg e message_data w) as [_ (_ & _ & _ & Ha & _)].
  rewrite Ha, record_text_active. subst sender.
  by destruct (get_contact_info_frame
                 (default (lit "Unknown") (Observation.sender message_data)) w)
    as (_ & _ & -> & _).
Qed.

Lemma process_message_history cfg e message_data w :
  let sender := default (lit "Unknown") (Observation.sender message_data) in
  message_history (exec (process_message cfg e message_data) w) =
  match default [] (Observation.text message_data) with
  | [] => message_history w
  | text =>
      append_at (Contact.id (resolved sender w))
        (message_record (default [] (Observation.id message_data)) text
           (default false (Observation.is_outgoing message_data))
           (default (now_isoformat e) (Observation.timestamp message_data))
           (default (lit "Unknown Chat") (Observation.chat message_data)))
        (message_history w)
  end.
Proof.
  intros sender.
  destruct (process_message_data cfg e message_data w) as [_ (_ & Hh & _)].
  rewrite Hh, record_text_history. subst sender.
  by destruct (get_contact_info_frame
                 (default (lit "Unknown") (Observation.sender message_data)) w)
    as (-> & _).
Qed.

Lemma inv_process_message cfg e message_data w :
  inv w -> inv (exec (process_message cfg e message_data) w).
Proof.
  intros Hinv.
  pose proof (inv_get_contact_info
                (default (lit "Unknown") (Observation.sender message_data)) w Hinv)
    as [Hk Hb _].
  destruct Hinv as [_ _ Ha].
  split.
  - by rewrite process_message_contacts.
  - by rewrite process_message_contacts.
  - rewrite process_message_active.
    destruct (default [] (Observation.text message_data));
      [by rewrite app_nil_r|].
    destruct (decide _) as [|Hnotin]; [by rewrite app_nil_r|].
    apply NoDup_app. split; [done|]. split; [|apply NoDup_singleton].
    intros k Hin Hin'. apply list_elem_of_singleton in Hin'. by subst k.
Qed.

Lemma inv_step cfg w w' : step cfg w w' -> inv w -> inv w'.
Proof.
  destruct 1; [apply inv_process_message|apply inv_get_contact_info].
Qed.

Lemma reachable_inv cfg w : reachable cfg w -> inv w.
Proof.
  induction 1 as [fs|w w' _ IH Hstep]; [apply inv_init|by eapply inv_step].
Qed.

(** The cache only grows along a run. *)
Lemma step_contacts cfg w w' :
  step cfg w w' -> exists new, contacts w' = contacts w ++ new.
Proof.
  destruct 1 as [e message_data w|sender w].
  - rewrite process_message_contacts. apply get_contact_info_frame.
  - apply get_contact_info_frame.
Qed.

Lemma steps_contacts cfg w w' :
  rtc (step cfg) w w' -> exists new, contacts w' = contacts w ++ new.
Proof.
  induction 1 as [w|w w1 w2 Hstep _ [new2 IH]].
  - exists []. by rewrite app_nil_r.
  - destruct (step_contacts _ _ _ Hstep) as [new1 H1].
    exists (new1 ++ new2). by rewrite IH, H1, app_assoc.
Qed.

Lemma steps_cached cfg w w' sender c :
  rtc (step cfg) w w' ->
  dict_get sender (contacts w) = Some c ->
  dict_get sender (contacts w') = Some c.
Proof.
  intros Hsteps Hc. destruct (steps_contacts _ _ _ Hsteps) as [new ->].
  by rewrite dict_get_app, Hc.
Qed.

Lemma steps_reachable cfg w w' :
  rtc (step cfg) w w' -> reachable cfg w -> reachable cfg w'.
Proof.
  induction 1 as [|w w1 w2 Hstep _ IH]; [done|].
  intros Hw. apply IH. by eapply reachable_step.
Qed.

(** Resolving a sender that an observation has just brought gives the
    contact of the observation. *)
Lemma resolved_after_resolve sender w :
  resolved sender (exec (get_contact_info sender) w) = resolved sender w.
Proof.
  unfold resolved at 1. by rewrite get_contact_info_cached.
Qed.

Lemma resolved_after_process cfg e message_data w :
  let sender := default (lit "Unknown") (Observation.sender message_data) in
  resolved sender (exec (process_message cfg e message_data) w)
  = resolved sender w.
Proof.
  intros sender. unfold resolved at 1.
  rewrite process_message_contacts. fold sender.
  by rewrite get_contact_info_cached.
Qed.

(** ** C1: identity stability *)

Definition unknown_caller : Contact.t :=
  Contact.Make (lit "Unknown Caller") (lit "unknown_1") (lit "unknown_1").

Lemma fresh_unknown_caller :
  fresh_contact (lit "Unknown Caller") 0 = unknown_caller.
Proof. vm_compute. reflexivity. Qed.

(** C1. A sender resolved once resolves, at any later point of the run, to
    the very contact of the first resolution (same display name, phone number
    and id), and that later call leaves the state as it found it: the cache
    answers, nothing is computed or minted again.  In particular, with no
    prior contact, two observations from "Unknown Caller" both resolve to the
    contact with phone number "unknown_1", and the cache holds that single
    contact afterwards. *)
Theorem resolve_twice_identical cfg sender w :
  eval (get_contact_info sender) w = Ok (resolved sender w) /\
  (forall w',
     rtc (step cfg) (exec (get_contact_info sender) w) w' ->
     get_contact_info sender w' = (Ok (resolved sender w), w')) /\
  (forall e1 e2 o1 o2,
     contacts w = [] ->
     Observation.sender o1 = Some (lit "Unknown Caller") ->
     Observation.sender o2 = Some (lit "Unknown Caller") ->
     let w1 := exec (process_message cfg e1 o1) w in
     let w2 := exec (process_message cfg e2 o2) w1 in
     resolved (lit "Unknown Caller") w = unknown_caller /\
     resolved (lit "Unknown Caller") w1 = unknown_caller /\
     contacts w2 = [(lit "Unknown Caller", unknown_caller)]).
Proof.
  split; [apply get_contact_info_resolved|]. split.
  - intros w' Hsteps. apply get_contact_info_hit.
    eapply steps_cached; [done|]. apply get_contact_info_cached.
  - intros e1 e2 o1 o2 Hempty Ho1 Ho2 w1 w2.
    assert (resolved (lit "Unknown Caller") w = unknown_caller) as H0.
    { unfold resolved. rewrite Hempty. simpl. apply fresh_unknown_caller. }
    assert (contacts w1 = [(lit "Unknown Caller", unknown_caller)]) as H1.
    { subst w1. rewrite process_message_contacts, Ho1. simpl.
      unfold exec. rewrite get_contact_info_miss by by rewrite Hempty.
      simpl. rewrite Hempty. simpl. by rewrite fresh_unknown_caller. }
    assert (dict_get (lit "Unknown Caller") (contacts w1) = Some unknown_caller)
      as Hhit.
    { rewrite H1. simpl. by rewrite decide_True. }
    split; [done|]. split.
    + unfold resolved. by rewrite Hhit.
    + subst w2. rewrite process_message_contacts, Ho2. simpl.
      unfold exec. by rewrite (get_contact_info_hit _ _ _ Hhit).
Qed.

(** Sample inputs: a configuration, collaborators that all succeed, and a
    text observation. *)
Definition demo_config : config := Config 42 4096.

Definition demo_env : env :=
  Env (lit "2024-05-01T10:00:00") 1714557600
      (Ok tt) (Ok 200%Z) (Ok tt) (Ok tt) (Ok tt) (Ok tt) (Ok tt).

Definition text_observation (id sender text : string) : Observation.t :=
  Observation.Make (Some (lit id)) (Some (lit sender)) (Some (lit text))
    (Some (lit sender)) (Some false) (Some false) None
    (Some (lit "2024-05-01T09:59:58.000Z")).

Lemma resolve_twice_identical_witness :
  let w1 := exec (get_contact_info (lit "Unknown Caller")) (init_world ∅) in
  let w2 :=
    exec (process_message demo_config demo_env
            (text_observation "m7" "Alice (+1 5550100)" "hi")) w1 in
  get_contact_info (lit "Unknown Caller") w2
  = (Ok (resolved (lit "Unknown Caller") (init_world ∅)), w2).
Proof.
  apply (proj1 (proj2 (resolve_twice_identical demo_config
                         (lit "Unknown Caller") (init_world ∅)))).
  apply rtc_once. apply step_process.
Defined.

(** ** C3: positional placeholders *)

Definition placeholder (n : N) : str := lit "unknown_" ++ str_of_N n.

Lemma placeholder_inj n m : placeholder n = placeholder m -> n = m.
Proof. unfold placeholder. intros H%app_inv_head. by apply str_of_N_inj. Qed.

Lemma fresh_contact_unresolved sender count :
  re_search phone_pattern sender = None ->
  fresh_contact sender count =
  Contact.Make sender (placeholder (N.of_nat count + 1))
    (placeholder (N.of_nat count + 1)).
Proof. unfold fresh_contact. by intros ->. Qed.

(** In a run, a cached contact of a sender without a phone number carries the
    placeholder of its position in the cache. *)
Lemma cached_unresolved w sender c :
  inv w -> re_search phone_pattern sender = None ->
  dict_get sender (contacts w) = Some c ->
  exists i, (i < length (contacts w))%nat /\
    contacts w !! i = Some (sender, c) /\
    c = Contact.Make sender (placeholder (N.of_nat i + 1))
          (placeholder (N.of_nat i + 1)).
Proof.
  intros [_ Hb _] Hno Hc.
  destruct (dict_get_Some_lookup _ _ _ Hc) as [i Hi].
  exists i. split; [by eapply lookup_lt_Some|]. split; [done|].
  rewrite (Hb _ _ _ Hi). by apply fresh_contact_unresolved.
Qed.

(** C3. A sender with no match of the phone pattern, resolved for the first
    time, gets its raw string as display name and, as phone number and id,
    "unknown_" followed by the number of contacts in the cache plus one.  The
    numbers only go up: whatever the run does next, a later first-time sender
    without a phone number gets a strictly larger number and a different id.
    Within a run no two such senders share an id, while every run starts again
    at "unknown_1". *)
Theorem placeholder_ids cfg sender w :
  re_search phone_pattern sender = None ->
  dict_get sender (contacts w) = None ->
  let n := N.of_nat (length (contacts w)) + 1 in
  let c := Contact.Make sender (placeholder n) (placeholder n) in
  get_contact_info sender w
  = (Ok c, set_contacts (contacts w ++ [(sender, c)]) w) /\
  (forall w' sender',
     rtc (step cfg) (exec (get_contact_info sender) w) w' ->
     re_search phone_pattern sender' = None ->
     dict_get sender' (contacts w') = None ->
     exists n',
       n < n' /\
       resolved sender' w' = Contact.Make sender' (placeholder n') (placeholder n') /\
       Contact.id (resolved sender' w') <> Contact.id c) /\
  (forall w0 s1 s2 c1 c2,
     reachable cfg w0 ->
     re_search phone_pattern s1 = None -> re_search phone_pattern s2 = None ->
     dict_get s1 (contacts w0) = Some c1 -> dict_get s2 (contacts w0) = Some c2 ->
     Contact.id c1 = Contact.id c2 -> s1 = s2) /\
  (forall fs,
     Contact.id (resolved sender (init_world fs)) = lit "unknown_1").
Proof.
  intros Hno Hmiss n c.
  assert (get_contact_info sender w
          = (Ok c, set_contacts (contacts w ++ [(sender, c)]) w)) as Hrun.
  { rewrite get_contact_info_miss by done.
    by rewrite fresh_contact_unresolved. }
  split; [done|]. split; [|split].
  - intros w' sender' Hsteps Hno' Hmiss'.
    destruct (steps_contacts _ _ _ Hsteps) as [new Hnew].
    unfold exec in Hnew. rewrite Hrun in Hnew. simpl in Hnew.
    exists (N.of_nat (length (contacts w')) + 1).
    assert (n < N.of_nat (length (contacts w')) + 1) as Hlt.
    { rewrite Hnew, !length_app. simpl. subst n. lia. }
    split; [done|]. unfold resolved. rewrite Hmiss'.
    rewrite fresh_contact_unresolved by done. split; [done|].
    simpl. intros Heq%placeholder_inj. lia.
  - intros w0 s1 s2 c1 c2 Hreach Hno1 Hno2 Hc1 Hc2 Hid.
    pose proof (reachable_inv _ _ Hreach) as Hinv.
    destruct (cached_unresolved _ _ _ Hinv Hno1 Hc1) as (i & _ & Hi & ->).
    destruct (cached_unresolved _ _ _ Hinv Hno2 Hc2) as (j & _ & Hj & ->).
    simpl in Hid. apply placeholder_inj in Hid.
    assert (i = j) as -> by lia. congruence.
  - intros fs. unfold resolved. simpl.
    by rewrite fresh_contact_unresolved.
Qed.

Lemma placeholder_ids_witness :
  let w := exec (get_contact_info (lit "Unknown Caller")) (init_world ∅) in
  let c := Contact.Make (lit "Bob") (placeholder 2) (placeholder 2) in
  get_contact_info (lit "Bob") w
  = (Ok c, set_contacts (contacts w ++ [(lit "Bob", c)]) w).
Proof.
  apply (proj1 (placeholder_ids demo_config (lit "Bob")
                  (exec (get_contact_info (lit "Unknown Caller")) (init_world ∅))
                  ltac:(vm_compute; reflexivity) ltac:(vm_compute; reflexivity))).
Defined.

(** ** C4: history is append-only *)

(** The record that an observation leaves in the history. *)
Definition record_of (e : env) (message_data : Observation.t) : Message.t :=
  message_record (default [] (Observation.id message_data))
    (default [] (Observation.text message_data))
    (default false (Observation.is_outgoing message_data))
    (default (now_isoformat e) (Observation.timestamp message_data))
    (default (lit "Unknown Chat") (Observation.chat message_data)).

Definition sender_of (message_data : Observation.t) : str :=
  default (lit "Unknown") (Observation.sender message_data).

Lemma process_message_history_text cfg e message_data w :
  default [] (Observation.text message_data) <> [] ->
  message_history (exec (process_message cfg e message_data) w) =
  append_at (Contact.id (resolved (sender_of message_data) w))
    (record_of e message_data) (message_history w).
Proof.
  intros Htext. rewrite process_message_history. unfold record_of.
  by destruct (default [] (Observation.text message_data)).
Qed.

Lemma append_at_lookup {V} k (x : V) d :
  append_at k x d !! k = Some (default [] (d !! k) ++ [x]).
Proof. unfold append_at. by rewrite lookup_insert_eq. Qed.

Lemma append_at_lookup_ne {V} k k' (x : V) d :
  k <> k' -> append_at k x d !! k' = d !! k'.
Proof. intros H. unfold append_at. by rewrite lookup_insert_ne. Qed.

Lemma process_message_history_grows cfg e message_data w k h :
  message_history w !! k = Some h ->
  exists t, message_history (exec (process_message cfg e message_data) w) !! k
            = Some (h ++ t).
Proof.
  intros Hk. rewrite process_message_history.
  destruct (default [] (Observation.text message_data)) as [|a text].
  { exists []. by rewrite app_nil_r. }
  destruct (decide (Contact.id (resolved
              (default (lit "Unknown") (Observation.sender message_data)) w) = k))
    as [->|Hne].
  - rewrite append_at_lookup, Hk. by eexists.
  - rewrite append_at_lookup_ne by done. exists []. by rewrite app_nil_r.
Qed.

(** C4. Processing an observation with text appends its record at the end of
    its contact's history and touches no other history; so two observations
    of one contact, processed in turn, extend the history by their two records
    in that order, and an observation processed twice is recorded twice (no
    deduplication on the id).  Whatever is processed, a history already there
    stays as a prefix: nothing is removed or reordered. *)
Theorem history_append_only cfg e1 e2 o1 o2 w :
  default [] (Observation.text o1) <> [] ->
  default [] (Observation.text o2) <> [] ->
  let w1 := exec (process_message cfg e1 o1) w in
  let w2 := exec (process_message cfg e2 o2) w1 in
  let k := Contact.id (resolved (sender_of o1) w) in
  let old := default [] (message_history w !! k) in
  message_history w1 !! k = Some (old ++ [record_of e1 o1]) /\
  (forall k', k' <> k -> message_history w1 !! k' = message_history w !! k') /\
  (Contact.id (resolved (sender_of o2) w1) = k ->
   message_history w2 !! k = Some (old ++ [record_of e1 o1; record_of e2 o2])) /\
  message_history (exec (process_message cfg e1 o1) w1) !! k
  = Some (old ++ [record_of e1 o1; record_of e1 o1]) /\
  (forall e o k' h,
     message_history w !! k' = Some h ->
     exists t, message_history (exec (process_message cfg e o) w) !! k'
               = Some (h ++ t)).
Proof.
  intros Ht1 Ht2 w1 w2 k old.
  assert (message_history w1 !! k = Some (old ++ [record_of e1 o1])) as H1.
  { subst w1. rewrite process_message_history_text by done.
    apply append_at_lookup. }
  split; [done|]. split; [|split; [|split]].
  - intros k' Hne. subst w1. rewrite process_message_history_text by done.
    by apply append_at_lookup_ne.
  - intros Hsame. subst w2. rewrite process_message_history_text by done.
    rewrite Hsame, append_at_lookup, H1. simpl. by rewrite <- app_assoc.
  - rewrite process_message_history_text by done.
    subst w1. unfold sender_of. rewrite resolved_after_process.
    fold (sender_of o1). fold k.
    rewrite append_at_lookup, H1. simpl. by rewrite <- app_assoc.
  - intros e o k' h. apply process_message_history_grows.
Qed.

Lemma history_append_only_witness :
  let o1 := text_observation "m1" "Alice (+1 5550100)" "hi" in
  let o2 := text_observation "m2" "Alice (+1 5550100)" "are you there?" in
  let w2 :=
    exec (process_message demo_config demo_env o2)
      (exec (process_message demo_config demo_env o1) (init_world ∅)) in
  message_history w2 !! lit "15550100"
  = Some [record_of demo_env o1; record_of demo_env o2].
Proof.
  apply (proj1 (proj2 (proj2
    (history_append_only demo_config demo_env demo_env
       (text_observation "m1" "Alice (+1 5550100)" "hi")
       (text_observation "m2" "Alice (+1 5550100)" "are you there?")
       (init_world ∅)
       ltac:(vm_compute; discriminate) ltac:(vm_compute; discriminate))))).
  vm_compute. reflexivity.
Defined.

(** ** C5: the active-chat list *)

(** C5. [process_message] keeps the active-chat list free of duplicates and
    only ever extends it at the end: the list after the call is the list
    before, followed by the contact's id when the observation has text and the
    id is not yet listed.  So an id stands where its contact first produced a
    text message, and entries are never removed or reordered; in every state
    of a run the list has no duplicate. *)
Theorem active_chats_once cfg e message_data w :
  NoDup (active_chats w) ->
  let w' := exec (process_message cfg e message_data) w in
  let cid := Contact.id (resolved (sender_of message_data) w) in
  NoDup (active_chats w') /\
  active_chats w' =
    active_chats w ++
    match default [] (Observation.text message_data) with
    | [] => []
    | _ :: _ => if decide (cid ∈ active_chats w) then [] else [cid]
    end /\
  (forall w0, reachable cfg w0 -> NoDup (active_chats w0)).
Proof.
  intros Hnd w' cid.
  assert (active_chats w' =
    active_chats w ++
    match default [] (Observation.text message_data) with
    | [] => []
    | _ :: _ => if decide (cid ∈ active_chats w) then [] else [cid]
    end) as Hact by apply process_message_active.
  split; [|split; [done|]].
  - rewrite Hact.
    destruct (default [] (Observation.text message_data));
      [by rewrite app_nil_r|].
    destruct (decide _) as [|Hnotin]; [by rewrite app_nil_r|].
    apply NoDup_app. split; [done|]. split; [|apply NoDup_singleton].
    intros k Hin Hin'. apply list_elem_of_singleton in Hin'. by subst k.
  - intros w0 Hreach. by destruct (reachable_inv _ _ Hreach).
Qed.

Lemma active_chats_once_witness :
  let o1 := text_observation "m1" "Alice (+1 5550100)" "hi" in
  let w1 := exec (process_message demo_config demo_env o1) (init_world ∅) in
  let w2 := exec (process_message demo_config demo_env o1) w1 in
  NoDup (active_chats w2) /\ active_chats w2 = [lit "15550100"].
Proof.
  pose proof (active_chats_once demo_config demo_env
    (text_observation "m1" "Alice (+1 5550100)" "hi")
    (exec (process_message demo_config demo_env
             (text_observation "m1" "Alice (+1 5550100)" "hi")) (init_world ∅))
    ltac:(vm_compute; apply NoDup_singleton)) as [Hnd [Hact _]].
  split; [exact Hnd|]. rewrite Hact. vm_compute. reflexivity.
Defined.

(** ** C10: an observation without text and without media *)

(** C10. When the text is empty or missing and no media is declared,
    [process_message] does exactly what resolving the sender does: it makes no
    call on the Telegram client and leaves history, formatted messages, active
    chats, files and log as they were.  The sender is resolved all the same: an
    unseen sender is added to the cache, which takes a position of the
    placeholder numbering, so the next unseen sender without a phone number
    gets the number after it. *)
Theorem silent_observation_still_resolves cfg e message_data w :
  default [] (Observation.text message_data) = [] ->
  default false (Observation.has_media message_data) = false ->
  let sender := sender_of message_data in
  let w' := exec (process_message cfg e message_data) w in
  process_message cfg e message_data w
  = (Ok tt, exec (get_contact_info sender) w) /\
  telegram w' = telegram w /\
  message_history w' = message_history w /\
  chat_groups w' = chat_groups w /\
  active_chats w' = active_chats w /\
  files w' = files w /\ log w' = log w /\
  (dict_get sender (contacts w) = None ->
   contacts w'
   = contacts w ++ [(sender, fresh_contact sender (length (contacts w)))] /\
   forall sender',
     sender' <> sender ->
     dict_get sender' (contacts w) = None ->
     re_search phone_pattern sender' = None ->
     Contact.id (resolved sender' w')
     = placeholder (N.of_nat (length (contacts w)) + 2)).
Proof.
  intros Htext Hmedia sender w'.
  assert (process_message cfg e message_data w
          = (Ok tt, exec (get_contact_info sender) w)) as Hrun.
  { unfold process_message. rewrite Htext, Hmedia. simpl.
    pose proof (get_contact_info_resolved sender w) as Hres.
    unfold eval, exec in *. fold (sender_of message_data). fold sender.
    unfold bind. destruct (get_contact_info sender w) as [r w1].
    simpl in *. by subst r. }
  split; [done|].
  subst w'. unfold exec at 1 2 3 4 5 6. rewrite Hrun. simpl.
  destruct (get_contact_info_frame sender w) as (Hh & Hg & Ha & Hf & Ht & Hl & _).
  repeat (split; [done|]).
  intros Hmiss. unfold exec. rewrite Hrun. simpl.
  unfold exec. rewrite get_contact_info_miss by done. simpl.
  split; [done|].
  intros sender' Hne Hmiss' Hno. unfold resolved. simpl.
  rewrite dict_get_app, Hmiss'. simpl. rewrite decide_False by done.
  rewrite fresh_contact_unresolved by done. simpl.
  rewrite length_app. simpl. f_equal. lia.
Qed.

Lemma silent_observation_still_resolves_witness :
  let o :=
    Observation.Make (Some (lit "m9")) (Some (lit "Carol")) None
      (Some (lit "Carol")) None None None None in
  let w' := exec (process_message demo_config demo_env o) (init_world ∅) in
  telegram w' = [] /\ active_chats w' = [] /\
  contacts w' = [(lit "Carol", fresh_contact (lit "Carol") 0)].
Proof.
  pose proof (silent_observation_still_resolves demo_config demo_env
    (Observation.Make (Some (lit "m9")) (Some (lit "Carol")) None
       (Some (lit "Carol")) None None None None)
    (init_world ∅) eq_refl eq_refl)
    as (_ & Ht & _ & _ & Ha & _ & _ & Hc).
  split; [exact Ht|]. split; [exact Ha|].
  exact (proj1 (Hc eq_refl)).
Defined.

(** ** C7: a failing media pipeline is contained *)

(** The text stage of [process_message] (lines 319-358). *)
Definition text_stage (cfg : config) (e : env) (message_data : Observation.t)
    (contact_info : Contact.t) : M unit :=
  let message_id := default [] (Observation.id message_data) in
  let sender := default (lit "Unknown") (Observation.sender message_data) in
  let text := default [] (Observation.text message_data) in
  let chat_title := default (lit "Unknown Chat") (Observation.chat message_data) in
  let is_outgoing := default false (Observation.is_outgoing message_data) in
  let timestamp := default (now_isoformat e) (Observation.timestamp message_data) in
  let direction := direction_of is_outgoing in
  match text with
  | [] => ret tt
  | _ :: _ =>
      let formatted_msg :=
        format_message direction contact_info chat_title text timestamp in
      let cid := Contact.id contact_info in
      modify (fun w =>
        set_message_history
          (append_at cid
             (message_record message_id text is_outgoing timestamp chat_title)
             (message_history w)) w) ;;;
      modify (fun w =>
        set_chat_groups (append_at cid formatted_msg (chat_groups w)) w) ;;;
      modify (fun w =>
        if decide (cid ∈ active_chats w) then w
        else set_active_chats (active_chats w ++ [cid]) w) ;;;
      try_except
        (modify (fun w =>
           set_telegram
             (telegram w ++ [SendMessage (telegram_chat_id cfg) formatted_msg]) w) ;;;
         outcome (send_message e) ;;;
         logger INFO (lit "Message forwarded to Telegram: " ++ direction
                      ++ lit " - " ++ sender ++ lit " - "
                      ++ py_slice text 0 50 ++ lit "..."))
        (fun x =>
           logger ERROR (lit "Error forwarding message to Telegram: " ++ exn_str x))
  end.

Lemma process_message_stages cfg e message_data :
  process_message cfg e message_data =
  (let* contact_info := get_contact_info (sender_of message_data) in
   media_stage cfg e message_data contact_info ;;;
   text_stage cfg e message_data contact_info).
Proof. reflexivity. Qed.

(** The text stage adds the same log records and Telegram calls wherever it
    starts, and touches no file. *)
Lemma text_stage_effect cfg e message_data c :
  exists records calls, forall w,
    exists w',
      text_stage cfg e message_data c w = (Ok tt, w') /\
      log w' = log w ++ records /\ telegram w' = telegram w ++ calls /\
      files w' = files w.
Proof.
  unfold text_stage.
  destruct (default [] (Observation.text message_data)) as [|a text].
  { exists [], []. intros w. exists w. by rewrite !app_nil_r. }
  run_monad.
  destruct (send_message e) as [[]|x]; simpl; do 2 eexists; intros w;
    destruct (decide (Contact.id c ∈ active_chats w)); simpl;
    eexists; (split; [reflexivity|]); simpl; done.
Qed.

(** The log record that a failure of the media pipeline leaves, if it fails:
    a download answered with another status than 200, or an exception of a
    collaborator on the way. *)
Definition media_error (x : exn) : str :=
  lit "Error downloading and sending media: " ++ exn_str x.

Definition media_failure (e : env) : option str :=
  match import_aiohttp e with
  | Raise x => Some (media_error x)
  | Ok _ =>
      match session_get e with
      | Raise x => Some (media_error x)
      | Ok status =>
          if (status =? 200)%Z then
            match open_wb e, write_chunks e, send_file e, os_remove e with
            | Raise x, _, _, _ => Some (media_error x)
            | Ok _, Raise x, _, _ => Some (media_error x)
            | Ok _, Ok _, Raise x, _ => Some (media_error x)
            | Ok _, Ok _, Ok _, Raise x => Some (media_error x)
            | Ok _, Ok _, Ok _, Ok _ => None
            end
          else Some (lit "Failed to download media: HTTP " ++ str_of_Z status)
      end
  end.

Lemma media_stage_failure cfg e message_data c w msg :
  default false (Observation.has_media message_data) = true ->
  truthy (Observation.media_url message_data) = true ->
  media_failure e = Some msg ->
  exists w' before,
    media_stage cfg e message_data c w = (Ok tt, w') /\
    log w' = log w ++ before ++ [(ERROR, msg)].
Proof.
  intros Hm Hu Hfail. unfold media_stage. rewrite Hm, Hu. simpl.
  unfold download_and_send_media, media_failure in *. run_monad.
  destruct (import_aiohttp e) as [[]|x0]; simpl;
    [|simplify_eq; eexists; exists []; by split].
  destruct (session_get e) as [status|x1]; simpl;
    [|simplify_eq; eexists; exists []; by split].
  destruct (status =? 200)%Z; simpl; [|simplify_eq; eexists; exists []; by split].
  destruct (open_wb e) as [[]|x2]; simpl; [|simplify_eq; eexists; exists []; by split].
  destruct (write_chunks e) as [[]|x3]; simpl; [|simplify_eq; eexists; exists []; by split].
  destruct (send_file e) as [[]|x4]; simpl; [|simplify_eq; eexists; exists []; by split].
  destruct (os_remove e) as [[]|x5]; simpl; [done|].
  simplify_eq. eexists; eexists [_]. split; [done|]. simpl. by rewrite <- app_assoc.
Qed.

Lemma media_stage_not_200 cfg e message_data c w status :
  default false (Observation.has_media message_data) = true ->
  truthy (Observation.media_url message_data) = true ->
  import_aiohttp e = Ok tt -> session_get e = Ok status -> status <> 200%Z ->
  media_stage cfg e message_data c w =
  (Ok tt,
   set_log (log w ++ [(ERROR, lit "Failed to download media: HTTP "
                              ++ str_of_Z status)]) w).
Proof.
  intros Hm Hu Hi Hs Hne. unfold media_stage. rewrite Hm, Hu. simpl.
  unfold download_and_send_media. run_monad. rewrite Hi, Hs. simpl.
  by rewrite (proj2 (Z.eqb_neq _ _) Hne).
Qed.

(** The observation with its media declaration taken away. *)
Definition without_media (o : Observation.t) : Observation.t :=
  Observation.Make (Observation.id o) (Observation.sender o)
    (Observation.text o) (Observation.chat o) (Observation.is_outgoing o)
    (Some false) (Observation.media_url o) (Observation.timestamp o).

Lemma same_data_trans w1 w2 w3 :
  same_data w1 w2 -> same_data w2 w3 -> same_data w1 w3.
Proof.
  unfold same_data. intros (?&?&?&?&?) (?&?&?&?&?).
  repeat split; congruence.
Qed.

Lemma same_data_sym w1 w2 : same_data w1 w2 -> same_data w2 w1.
Proof. unfold same_data. intros (?&?&?&?&?). repeat split; congruence. Qed.

(** Media never changes what [process_message] records, and never makes it
    raise. *)
Lemma process_message_media_independent cfg e message_data w :
  eval (process_message cfg e message_data) w = Ok tt /\
  same_data (exec (process_message cfg e (without_media message_data)) w)
            (exec (process_message cfg e message_data) w).
Proof.
  destruct (process_message_data cfg e message_data w) as [Hok Hd].
  destruct (process_message_data cfg e (without_media message_data) w)
    as [_ Hd'].
  split; [done|]. eapply same_data_trans; [|exact Hd].
  apply same_data_sym. exact Hd'.
Qed.

(** C7. When an observation declares media and the media pipeline fails,
    [process_message] returns normally; the failure is in the log as an error
    record; and contacts, history, formatted messages and active chats end up
    exactly as if the observation had declared no media.  When the download is
    answered with a status outside 200-299, the run differs from the text-only
    run by that one log record alone: same files, same Telegram calls. *)
Theorem media_failure_contained cfg e message_data w msg :
  default false (Observation.has_media message_data) = true ->
  truthy (Observation.media_url message_data) = true ->
  media_failure e = Some msg ->
  let w' := exec (process_message cfg e message_data) w in
  let wt := exec (process_message cfg e (without_media message_data)) w in
  eval (process_message cfg e message_data) w = Ok tt /\
  same_data wt w' /\
  (ERROR, msg) ∈ log w' /\
  (forall status,
     import_aiohttp e = Ok tt -> session_get e = Ok status ->
     (status < 200 \/ 299 < status)%Z ->
     msg = lit "Failed to download media: HTTP " ++ str_of_Z status /\
     files w' = files wt /\ telegram w' = telegram wt /\
     exists rest,
       log wt = log w ++ rest /\ log w' = log w ++ (ERROR, msg) :: rest).
Proof.
  intros Hm Hu Hfail w' wt.
  destruct (process_message_media_independent cfg e message_data w) as [Hok Hd].
  split; [done|]. split; [done|].
  pose proof (get_contact_info_resolved (sender_of message_data) w) as Hres.
  destruct (get_contact_info_frame (sender_of message_data) w)
    as (_ & _ & _ & Hf1 & Ht1 & Hl1 & _).
  unfold eval, exec in Hres, Hf1, Ht1, Hl1.
  destruct (get_contact_info (sender_of message_data) w) as [r w1] eqn:Hg.
  simpl in *. subst r.
  set (c := resolved (sender_of message_data) w) in *.
  destruct (text_stage_effect cfg e message_data c) as (records & calls & Htext).
  assert (process_message cfg e (without_media message_data) w
          = text_stage cfg e message_data c w1) as Hrun_t.
  { rewrite process_message_stages.
    change (sender_of (without_media message_data))
      with (sender_of message_data).
    by rewrite (bind_ok _ _ _ _ _ Hg). }
  split.
  - destruct (media_stage_failure cfg e message_data c w1 msg Hm Hu Hfail)
      as (W1 & before & Hms & Hlog).
    destruct (Htext W1) as (W' & Hts & Hl & _).
    subst w'. unfold exec. rewrite process_message_stages.
    rewrite (bind_ok _ _ _ _ _ Hg), (bind_ok _ _ _ _ _ Hms), Hts. simpl.
    rewrite Hl, Hlog, !elem_of_app, list_elem_of_singleton. auto.
  - intros status Hi Hs Hrange.
    assert (status <> 200%Z) as Hne by lia.
    assert (msg = lit "Failed to download media: HTTP " ++ str_of_Z status)
      as Hmsg.
    { unfold media_failure in Hfail. rewrite Hi, Hs in Hfail.
      rewrite (proj2 (Z.eqb_neq _ _) Hne) in Hfail. congruence. }
    split; [done|].
    pose proof (media_stage_not_200 cfg e message_data c w1 status
                  Hm Hu Hi Hs Hne) as Hms.
    rewrite <- Hmsg in Hms.
    destruct (Htext w1) as (Wt & Hts_t & Hl_t & Ht_t & Hf_t).
    destruct (Htext (set_log (log w1 ++ [(ERROR, msg)]) w1))
      as (W' & Hts & Hl & Ht & Hf).
    subst w' wt. unfold exec. rewrite Hrun_t, Hts_t.
    rewrite process_message_stages.
    rewrite (bind_ok _ _ _ _ _ Hg), (bind_ok _ _ _ _ _ Hms), Hts. simpl.
    rewrite Hf, Hf_t, Ht, Ht_t, Hl, Hl_t. simpl.
    split; [done|]. split; [done|].
    exists records. rewrite Hl1. split; [done|]. by rewrite <- app_assoc.
Qed.

(** A media observation and collaborators whose download answers 404. *)
Definition media_observation : Observation.t :=
  Observation.Make (Some (lit "m3")) (Some (lit "Alice (+1 5550100)"))
    (Some (lit "see photo")) (Some (lit "Alice")) (Some false) (Some true)
    (Some (lit "https://cdn.example/media/photo.jpg"))
    (Some (lit "2024-05-01T09:59:58.000Z")).

Definition env_404 : env :=
  Env (lit "2024-05-01T10:00:00") 1714557600
      (Ok tt) (Ok 404%Z) (Ok tt) (Ok tt) (Ok tt) (Ok tt) (Ok tt).

Lemma media_failure_contained_witness :
  let w' := exec (process_message demo_config env_404 media_observation)
              (init_world ∅) in
  eval (process_message demo_config env_404 media_observation) (init_world ∅)
  = Ok tt /\
  (ERROR, lit "Failed to download media: HTTP 404") ∈ log w'.
Proof.
  pose proof (media_failure_contained demo_config env_404 media_observation
                (init_world ∅) (lit "Failed to download media: HTTP 404")
                eq_refl eq_refl ltac:(vm_compute; reflexivity))
    as (Hok & _ & Hlog & _).
  split; [exact Hok|exact Hlog].
Defined.

(** ** C8: the temporary media file when the upload fails *)

(** Collaborators whose download succeeds and whose [send_file] raises. *)
Definition env_send_file_fails : env :=
  Env (lit "2024-05-01T10:00:00") 1714557600
      (Ok tt) (Ok 200%Z) (Ok tt) (Ok tt)
      (Raise (External (lit "Cannot send requests while disconnected")))
      (Ok tt) (Ok tt).

(** [os.remove] comes after [send_file] inside the same [try] (lines
    387-396), with no [finally]: an exception of [send_file] jumps over it. *)
Lemma send_file_failure_skips_remove cfg e url c dir chat ts w x :
  import_aiohttp e = Ok tt -> session_get e = Ok 200%Z ->
  open_wb e = Ok tt -> write_chunks e = Ok tt -> send_file e = Raise x ->
  let name := lit "temp_media_" ++ str_of_Z (now_timestamp e) ++ splitext_ext url in
  name ∈ files (exec (download_and_send_media cfg e url c dir chat ts) w).
Proof.
  intros Hi Hs Ho Hw Hf name.
  unfold exec, download_and_send_media. run_monad.
  rewrite Hi, Hs. simpl. rewrite Ho, Hw, Hf. simpl.
  apply elem_of_union_l. by apply elem_of_singleton.
Qed.

(** C8 fails on the code.  The download of the sample media observation
    succeeds and [send_file] raises: [process_message] returns, the failure is
    logged, and the file written for the download is still there.  With a
    successful [send_file] it is removed. *)
Theorem media_file_left_when_send_fails :
  let w' := exec (process_message demo_config env_send_file_fails
                    media_observation) (init_world ∅) in
  let w_ok := exec (process_message demo_config demo_env media_observation)
                (init_world ∅) in
  eval (process_message demo_config env_send_file_fails media_observation)
    (init_world ∅) = Ok tt /\
  elements (files w') = [lit "temp_media_1714557600.jpg"] /\
  elements (files w_ok) = [] /\
  (ERROR, lit "Error downloading and sending media: Cannot send requests while disconnected")
    ∈ log w'.
Proof.
  split; [vm_compute; reflexivity|].
  split; [vm_compute; reflexivity|].
  split; [vm_compute; reflexivity|].
  vm_compute. apply list_elem_of_here.
Qed.

(** ** C9: [/chats] *)

(** The handlers never write the tracked data. *)
Definition read_only (c : M unit) : Prop :=
  forall w,
    contacts (exec c w) = contacts w /\
    message_history (exec c w) = message_history w /\
    chat_groups (exec c w) = chat_groups w /\
    active_chats (exec c w) = active_chats w /\
    files (exec c w) = files w /\
    telegram (exec c w) = telegram w /\ log (exec c w) = log w.

Lemma chats_loop_frame ids : forall i acc w,
  snd (chats_loop i ids acc w) = w.
Proof.
  induction ids as [|cid ids IH]; intros i acc w; simpl; [done|].
  run_monad. destruct (dict_get cid (contacts w)); simpl; [apply IH|done].
Qed.

Lemma chats_handler_read_only : read_only chats_handler.
Proof.
  intros w. unfold exec, chats_handler. run_monad.
  destruct (active_chats w) as [|a l] eqn:Ha; simpl; [by rewrite Ha|].
  pose proof (chats_loop_frame (last_n 10 (a :: l)) 1
                (lit "Recent Chats:" ++ [newline]) w) as Hloop.
  destruct (chats_loop _ _ _ w) as [[chat_list|x] w1]; simpl in *; subst w1;
    simpl; by rewrite Ha.
Qed.

Lemma chats_handler_empty w :
  active_chats w = [] ->
  chats_handler w
  = (Ok tt, set_replies (replies w ++ [lit "No active chats yet."]) w).
Proof. intros H. unfold chats_handler. run_monad. by rewrite H. Qed.

(** The loop raises as soon as it meets an id that is not a key of
    [self.contacts]: the default dict has no ['phone_number']. *)
Lemma chats_loop_missing_key ids : forall i acc w,
  (exists cid, cid ∈ ids /\ dict_get cid (contacts w) = None) ->
  chats_loop i ids acc w = (Raise (KeyError (lit "phone_number")), w).
Proof.
  induction ids as [|cid ids IH]; intros i acc w (k & Hin & Hk).
  { by apply elem_of_nil in Hin. }
  simpl. run_monad.
  destruct (dict_get cid (contacts w)) as [c|] eqn:Hc; simpl; [|done].
  apply IH. exists k. split; [|done].
  apply elem_of_cons in Hin as [->|Hin]; [congruence|done].
Qed.

Lemma chats_handler_missing_key w cid :
  cid ∈ last_n 10 (active_chats w) -> dict_get cid (contacts w) = None ->
  chats_handler w = (Raise (KeyError (lit "phone_number")), w).
Proof.
  intros Hin Hmiss. unfold chats_handler. run_monad.
  destruct (active_chats w) as [|a l] eqn:Ha.
  { by apply elem_of_nil in Hin. }
  rewrite (chats_loop_missing_key _ _ _ w); [done|by exists cid].
Qed.

(** C9 fails on the code.  After one text message of "Alice (+1 5550100)" the
    active-chat list holds her id "15550100", while [self.contacts] is keyed by
    the raw sender string: [/chats] looks the id up, falls back to the default
    dict and raises [KeyError] on ['phone_number'].  No reply is sent. *)
Theorem chats_handler_raises_on_active_chat :
  let w := exec (process_message demo_config demo_env
                   (text_observation "m1" "Alice (+1 5550100)" "hi"))
             (init_world ∅) in
  active_chats w = [lit "15550100"] /\
  contacts w = [(lit "Alice (+1 5550100)",
                 Contact.Make (lit "Alice") (lit "15550100") (lit "15550100"))] /\
  chats_handler w = (Raise (KeyError (lit "phone_number")), w) /\
  replies (exec chats_handler w) = [].
Proof.
  split; [vm_compute; reflexivity|].
  split; [vm_compute; reflexivity|].
  split; [vm_compute; reflexivity|].
  vm_compute; reflexivity.
Qed.

(** ** C6: [/history] replies in segments *)

Lemma respond_all_run chunks : forall w,
  respond_all chunks w = (Ok tt, set_replies (replies w ++ chunks) w).
Proof.
  induction chunks as [|c chunks IH]; intros w; simpl.
  - unfold ret. rewrite app_nil_r. by destruct w.
  - run_monad. fold (respond_all chunks). rewrite IH. simpl.
    by rewrite <- app_assoc.
Qed.

(** The [k]-th segment of [s] cut at every [n] characters. *)
Definition segment {A} (n : nat) (s : list A) (k : nat) : list A :=
  take n (drop (k * n) s).

Lemma concat_segments {A} (n : nat) (s : list A) m :
  concat (map (segment n s) (seq 0 m)) = take (m * n) s.
Proof.
  induction m as [|m IH]; [done|].
  rewrite seq_S, map_app, concat_app, IH. simpl. rewrite app_nil_r.
  unfold segment. rewrite take_take_drop. f_equal. lia.
Qed.

Lemma py_range_positive len n :
  (0 <= len)%Z -> (0 < n)%Z ->
  py_range 0 len n =
  Ok (map (fun k => (Z.of_nat k * n)%Z)
        (seq 0 (Z.to_nat ((len + n - 1) / n)))).
Proof.
  intros Hlen Hn. unfold py_range.
  rewrite (proj2 (Z.eqb_neq n 0)) by lia.
  rewrite (proj2 (Z.ltb_lt 0 n)) by lia.
  do 2 f_equal. by rewrite Z.sub_0_r.
Qed.

(** A slice that starts inside the string, at a multiple of [n]. *)
Lemma py_slice_segment {A} (s : list A) (n : Z) (k : nat) :
  (0 < n)%Z -> (Z.of_nat k * n < Z.of_nat (length s))%Z ->
  py_slice s (Z.of_nat k * n) (Z.of_nat k * n + n) = segment (Z.to_nat n) s k.
Proof.
  intros Hn Hk. unfold py_slice, segment, clamp_index.
  rewrite !(proj2 (Z.ltb_ge _ 0)) by lia.
  rewrite (Z.min_l (Z.of_nat k * n)) by lia.
  replace (Z.to_nat (Z.of_nat k * n)) with (k * Z.to_nat n)%nat by lia.
  destruct (Z.le_ge_cases (Z.of_nat k * n + n) (Z.of_nat (length s))) as [Hle|Hge].
  - rewrite Z.min_l by lia. f_equal. lia.
  - rewrite Z.min_r by lia.
    rewrite !take_ge; [done| |]; rewrite length_drop; lia.
Qed.

(** The reply of lines 530-537 when the configured maximum is positive. *)
Lemma respond_split_positive cfg text w :
  (0 < max_message_length cfg)%Z ->
  let n := Z.to_nat (max_message_length cfg) in
  exists segments,
    respond_split cfg text w
    = (Ok tt, set_replies (replies w ++ segments) w) /\
    Forall (fun seg => (Z.of_nat (length seg) <= max_message_length cfg)%Z)
      segments /\
    concat segments = text /\
    (forall k seg, segments !! k = Some seg -> seg = segment n text k).
Proof.
  intros Hpos n. unfold respond_split.
  set (len := Z.of_nat (length text)). set (mx := max_message_length cfg) in *.
  destruct (mx <? len)%Z eqn:Hcmp.
  - apply Z.ltb_lt in Hcmp.
    set (m := Z.to_nat ((len + mx - 1) / mx)).
    assert (forall k, (k < m)%nat -> (Z.of_nat k * mx < len)%Z) as Hin.
    { intros k Hk. subst m.
      assert (Z.of_nat k < (len + mx - 1) / mx)%Z as Hk' by lia.
      assert (mx * ((len + mx - 1) / mx) <= len + mx - 1)%Z
        by (apply Z.mul_div_le; lia).
      nia. }
    assert (length text <= m * n)%nat as Hcover.
    { subst m n.
      pose proof (Z.mul_succ_div_gt (len + mx - 1) mx Hpos) as Hgt.
      assert (0 <= (len + mx - 1) / mx)%Z by (apply Z.div_pos; lia).
      nia. }
    exists (map (segment n text) (seq 0 m)).
    split; [|split; [|split]].
    + unfold bind, outcome. rewrite py_range_positive by lia.
      fold m. rewrite map_map, respond_all_run. do 3 f_equal.
      apply map_ext_in. intros k Hk%in_seq.
      apply py_slice_segment; [done|]. apply Hin. lia.
    + apply Forall_forall. intros seg Hseg.
      apply list_elem_of_fmap in Hseg as (k & -> & _).
      unfold segment. rewrite length_take. lia.
    + rewrite concat_segments. by apply take_ge.
    + intros k seg Hk. apply list_lookup_fmap_Some in Hk as (j & -> & Hj).
      apply lookup_seq in Hj as [-> _]. done.
  - apply Z.ltb_ge in Hcmp. exists [text].
    split; [done|]. split; [|split].
    + by apply Forall_singleton.
    + simpl. by rewrite app_nil_r.
    + intros [|k] seg Hk; simpl in Hk; [|by rewrite lookup_nil in Hk].
      simplify_eq. unfold segment. simpl. symmetry. apply take_ge. lia.
Qed.

Lemma find_target_is_key lower contact_name items key :
  find_target lower contact_name items = Some key ->
  exists c, dict_get key items = Some c.
Proof.
  induction items as [|[k c] items IH]; simpl; [done|].
  destruct (_ || _).
  - intros [= ->]. exists c. by rewrite decide_True.
  - intros H. destruct (decide (k = key)); [by exists c|by apply IH].
Qed.

(** What [history_handler] replies: either that it found no history, or the
    history text of the contact it found. *)
Inductive history_answer (lower : str -> str) (contact_name : str) (w : world)
  : option str -> Prop :=
| answer_none :
    history_answer lower contact_name w None
| answer_text key c history :
    find_target lower contact_name (contacts w) = Some key ->
    key <> [] ->
    dict_get key (contacts w) = Some c ->
    message_history w !! key = Some history ->
    history_answer lower contact_name w
      (Some (history_text_of (Contact.display_name c) (last_n 10 history))).

Lemma history_handler_cases lower cfg contact_name w :
  (history_handler lower cfg contact_name w
   = respond (lit "No message history found for: " ++ contact_name) w /\
   history_answer lower contact_name w None) \/
  (exists text,
     history_handler lower cfg contact_name w = respond_split cfg text w /\
     history_answer lower contact_name w (Some text)).
Proof.
  unfold history_handler. run_monad.
  destruct (find_target lower contact_name (contacts w)) as [[|a key]|] eqn:Hf;
    [left; split; [done|constructor]| |left; split; [done|constructor]].
  destruct (message_history w !! (a :: key)) as [history|] eqn:Hh;
    [|left; split; [done|constructor]].
  destruct (find_target_is_key _ _ _ _ Hf) as [c Hc]. rewrite Hc.
  right. eexists. split; [done|]. by econstructor.
Qed.

(** C6, amended.  With a positive configured maximum, [/history] never
    raises; when it finds a history, every segment it sends has at most the
    maximum number of characters, the [k]-th segment is the run of characters
    from position [k * maximum] on (a fixed boundary, whatever the words), and
    the segments in order concatenate to the history text. *)
Theorem history_segments lower cfg contact_name w :
  (0 < max_message_length cfg)%Z ->
  exists segments,
    history_handler lower cfg contact_name w
    = (Ok tt, set_replies (replies w ++ segments) w) /\
    ((segments = [lit "No message history found for: " ++ contact_name] /\
      history_answer lower contact_name w None) \/
     (exists text,
        history_answer lower contact_name w (Some text) /\
        Forall (fun seg =>
                  (Z.of_nat (length seg) <= max_message_length cfg)%Z) segments /\
        concat segments = text /\
        forall k seg,
          segments !! k = Some seg ->
          seg = segment (Z.to_nat (max_message_length cfg)) text k)).
Proof.
  intros Hpos.
  destruct (history_handler_cases lower cfg contact_name w)
    as [[Hrun Hans]|(text & Hrun & Hans)].
  - exists [lit "No message history found for: " ++ contact_name].
    split; [done|]. by left.
  - destruct (respond_split_positive cfg text w Hpos)
      as (segments & Hsplit & Hlen & Hcat & Hseg).
    exists segments. split; [by rewrite Hrun|].
    right. by exists text.
Qed.

(** A run in which the first sender is called "unknown_1": the cache key and
    the contact id coincide, so [/history] finds the history. *)
Definition history_world : world :=
  exec (process_message demo_config demo_env
          (text_observation "m1" "unknown_1" "hello there")) (init_world ∅).

Lemma history_segments_witness :
  exists segments,
    history_handler ascii_lower (Config 42 16) (lit "unknown") history_world
    = (Ok tt, set_replies (replies history_world ++ segments) history_world) /\
    Forall (fun seg => (Z.of_nat (length seg) <= 16)%Z) segments.
Proof.
  destruct (history_segments ascii_lower (Config 42 16) (lit "unknown")
              history_world ltac:(simpl; lia))
    as (segments & Hrun & [[-> Hans]|(text & Hans & Hlen & _)]).
  - exfalso. revert Hrun. vm_compute. intros Hrun. discriminate Hrun.
  - exists segments. split; [exact Hrun|exact Hlen].
Defined.

(** C6 as stated fails for a maximum that is not positive.  With
    [MAX_MESSAGE_LENGTH=-1] the length test passes, [range(0, len, -1)] is
    empty and nothing is sent, so the segments do not give back the history
    text; with [MAX_MESSAGE_LENGTH=0] the range raises [ValueError]. *)
Lemma history_lost_when_maximum_not_positive :
  let text :=
    history_text_of (lit "unknown_1")
      (last_n 10 [record_of demo_env
                    (text_observation "m1" "unknown_1" "hello there")]) in
  history_answer ascii_lower (lit "unknown_1") history_world (Some text) /\
  history_handler ascii_lower (Config 42 (-1)) (lit "unknown_1") history_world
  = (Ok tt, history_world) /\
  concat (replies (exec (history_handler ascii_lower (Config 42 (-1))
                           (lit "unknown_1")) history_world)) <> text /\
  history_handler ascii_lower (Config 42 0) (lit "unknown_1") history_world
  = (Raise (ValueError (lit "range() arg 3 must not be zero")), history_world).
Proof.
  split; [|split; [|split]].
  - eapply (answer_text ascii_lower (lit "unknown_1") history_world
              (lit "unknown_1")
              (Contact.Make (lit "unknown_1") (lit "unknown_1") (lit "unknown_1"))).
    + vm_compute. reflexivity.
    + vm_compute. discriminate.
    + vm_compute. reflexivity.
    + vm_compute. reflexivity.
  - vm_compute. reflexivity.
  - vm_compute. discriminate.
  - vm_compute. reflexivity.
Qed.

(** ** C2: the phone pattern *)

(** The characters of the class [[\s-]]. *)
Definition separators : list N :=
  [ 0x09; 0x0a; 0x0b; 0x0c; 0x0d; 0x1c; 0x1d; 0x1e; 0x1f; 0x20; 0x2d; 0x85;
    0xa0; 0x1680; 0x2000; 0x2001; 0x2002; 0x2003; 0x2004; 0x2005; 0x2006;
    0x2007; 0x2008; 0x2009; 0x200a; 0x2028; 0x2029; 0x202f; 0x205f; 0x3000 ].

Lemma separator_cases c :
  isspace c || (c =? hyphen) = true -> In c separators.
Proof.
  unfold isspace, space_ranges, in_range, existsb, hyphen, fst, snd.
  rewrite !orb_true_iff, !andb_true_iff, !N.leb_le, N.eqb_eq.
  unfold separators, In. lia.
Qed.

(** No decimal digit is a separator of the pattern. *)
Lemma separator_not_decimal c :
  isspace c || (c =? hyphen) = true -> isdecimal c = false.
Proof.
  intros H%separator_cases.
  assert (forallb (fun x => negb (isdecimal x)) separators = true) as Hall
    by (vm_compute; reflexivity).
  rewrite forallb_forall in Hall. by apply negb_true_iff, Hall.
Qed.

Lemma decimal_not_separator c :
  isdecimal c = true -> isspace c || (c =? hyphen) = false.
Proof.
  intros Hd. apply not_true_iff_false. intros Hs%separator_not_decimal.
  congruence.
Qed.

(** [s] is made of characters of class [p] / does not start with one. *)
Definition all_in (p : N -> bool) (s : str) : Prop :=
  Forall (fun c => p c = true) s.

Definition stops (p : N -> bool) (s : str) : Prop :=
  match s with
  | [] => True
  | c :: _ => p c = false
  end.

Lemma span_all p ds : forall n post,
  all_in p ds -> stops p post ->
  span p n (ds ++ post) = Nat.min n (length ds).
Proof.
  induction ds as [|d ds IH]; intros n post Hall Hstop; simpl.
  - rewrite Nat.min_0_r. destruct n, post; simpl; try done.
    simpl in Hstop. by rewrite Hstop.
  - apply Forall_cons in Hall as [Hd Hall].
    destruct n; simpl; [done|]. rewrite Hd. f_equal. by apply IH.
Qed.

Lemma backtrack_unfold k lo s n :
  backtrack k lo s n =
  if (n <? lo)%nat then None
  else match k (drop n s) with
       | Some l => Some (n + l)%nat
       | None =>
           match n with
           | O => None
           | S n' => backtrack k lo s n'
           end
       end.
Proof. by destruct n. Qed.

Lemma backtrack_first k lo s n l :
  (lo <= n)%nat -> k (drop n s) = Some l ->
  backtrack k lo s n = Some (n + l)%nat.
Proof.
  intros Hle Hk. rewrite backtrack_unfold, Hk.
  by rewrite (proj2 (Nat.ltb_ge n lo)).
Qed.

Lemma backtrack_next k lo s n :
  (lo <= S n)%nat -> k (drop (S n) s) = None ->
  backtrack k lo s (S n) = backtrack k lo s n.
Proof.
  intros Hle Hk. rewrite backtrack_unfold, Hk.
  by rewrite (proj2 (Nat.ltb_ge (S n) lo)).
Qed.

Lemma backtrack_below k lo s n :
  (n < lo)%nat -> backtrack k lo s n = None.
Proof.
  intros Hlt. rewrite backtrack_unfold.
  by rewrite (proj2 (Nat.ltb_lt n lo)).
Qed.

(** [\d{4,14}] at the end of the pattern, on a run of digits. *)
Lemma match_digits_4_14 ds post :
  all_in isdecimal ds -> stops isdecimal post ->
  match_here [Atom isdecimal 4 14] (ds ++ post) =
  if decide (4 <= length ds)%nat then Some (Nat.min 14 (length ds)) else None.
Proof.
  intros Hall Hstop.
  change (match_here (?a :: ?rest) ?s)
    with (backtrack (match_here rest) (lo a) s (span (cls a) (hi a) s)).
  cbn [lo hi cls]. rewrite span_all by done.
  destruct (decide (4 <= length ds)%nat) as [Hle|Hlt].
  - rewrite (backtrack_first _ _ _ _ O); [f_equal; lia|lia|done].
  - apply backtrack_below. lia.
Qed.

(** [[\s-]?\d{4,14}] where the next character is a digit: the optional
    separator matches nothing. *)
Lemma match_no_separator d ds post :
  all_in isdecimal (d :: ds) -> stops isdecimal post ->
  match_here [Atom (fun c => isspace c || (c =? hyphen)) 0 1;
              Atom isdecimal 4 14] ((d :: ds) ++ post) =
  if decide (4 <= length (d :: ds))%nat
  then Some (Nat.min 14 (length (d :: ds))) else None.
Proof.
  intros Hall Hstop.
  pose proof (match_digits_4_14 (d :: ds) post Hall Hstop) as Htail.
  apply Forall_cons in Hall as [Hd _].
  change (match_here (?a :: ?rest) ?s)
    with (backtrack (match_here rest) (lo a) s (span (cls a) (hi a) s)).
  cbn [lo hi cls]. simpl span. rewrite (decimal_not_separator _ Hd).
  rewrite backtrack_unfold. simpl drop. cbn [Nat.ltb Nat.leb].
  change (d :: ds ++ post) with ((d :: ds) ++ post).
  rewrite Htail. by destruct (decide _).
Qed.

(** [[\s-]?\d{4,14}] on a separator followed by 4 to 14 digits. *)
Lemma match_separator c ds post :
  isspace c || (c =? hyphen) = true ->
  all_in isdecimal ds -> stops isdecimal post ->
  (4 <= length ds <= 14)%nat ->
  match_here [Atom (fun c => isspace c || (c =? hyphen)) 0 1;
              Atom isdecimal 4 14] (c :: ds ++ post) = Some (S (length ds)).
Proof.
  intros Hc Hall Hstop Hlen.
  pose proof (match_digits_4_14 ds post Hall Hstop) as Htail.
  rewrite decide_True in Htail by lia.
  change (match_here (?a :: ?rest) ?s)
    with (backtrack (match_here rest) (lo a) s (span (cls a) (hi a) s)).
  cbn [lo hi cls]. simpl span. rewrite Hc.
  rewrite (backtrack_first _ _ _ _ (Nat.min 14 (length ds)));
    [f_equal; lia|lia|done].
Qed.

(** The pattern after its [\+]. *)
Definition number_pattern : list atom :=
  [ Atom isdecimal 1 3;
    Atom (fun c => isspace c || (c =? hyphen)) 0 1;
    Atom isdecimal 4 14 ].

(** Country code, one separator, number. *)
Lemma match_number_separated cc c num post :
  all_in isdecimal cc -> (1 <= length cc <= 3)%nat ->
  isspace c || (c =? hyphen) = true ->
  all_in isdecimal num -> (4 <= length num <= 14)%nat ->
  stops isdecimal post ->
  match_here number_pattern (cc ++ c :: num ++ post)
  = Some (length cc + S (length num))%nat.
Proof.
  intros Hcc Hlcc Hc Hnum Hlnum Hstop. unfold number_pattern.
  change (match_here (?a :: ?rest) ?s)
    with (backtrack (match_here rest) (lo a) s (span (cls a) (hi a) s)).
  cbn [lo hi cls].
  rewrite span_all; [|done|by apply separator_not_decimal].
  rewrite Nat.min_r by lia.
  apply backtrack_first; [lia|].
  rewrite drop_app_length. by apply match_separator.
Qed.

(** Country code and number written together: a run of 5 to 17 digits.  The
    country code first takes three digits and gives some back when fewer than
    four are left for the number. *)
Lemma match_number_joined ds post :
  all_in isdecimal ds -> (5 <= length ds <= 17)%nat ->
  stops isdecimal post ->
  match_here number_pattern (ds ++ post) = Some (length ds).
Proof.
  intros Hds Hlen Hstop. unfold number_pattern.
  change (match_here (?a :: ?rest) ?s)
    with (backtrack (match_here rest) (lo a) s (span (cls a) (hi a) s)).
  cbn [lo hi cls]. rewrite span_all by done. rewrite Nat.min_l by lia.
  assert (forall n, (1 <= n <= 3)%nat ->
            match_here [Atom (fun c => isspace c || (c =? hyphen)) 0 1;
                        Atom isdecimal 4 14] (drop n (ds ++ post)) =
            if decide (4 <= length ds - n)%nat
            then Some (Nat.min 14 (length ds - n)) else None) as Hrest.
  { intros n Hn. rewrite drop_app_le by lia.
    assert (all_in isdecimal (drop n ds)) as Hdrop by by apply Forall_drop.
    pose proof (length_drop ds n) as Hl.
    destruct (drop n ds) as [|d ds'] eqn:Hd; simpl in Hl; [lia|].
    rewrite match_no_separator by done. simpl length. rewrite Hl.
    done. }
  destruct (decide (7 <= length ds)%nat).
  { rewrite (backtrack_first _ _ _ _ (length ds - 3)); [f_equal; lia|lia|].
    rewrite Hrest by lia. rewrite decide_True by lia. f_equal. lia. }
  rewrite backtrack_next; [|lia|rewrite Hrest by lia; by rewrite decide_False by lia].
  destruct (decide (6 <= length ds)%nat).
  { rewrite (backtrack_first _ _ _ _ (length ds - 2)); [f_equal; lia|lia|].
    rewrite Hrest by lia. rewrite decide_True by lia. f_equal. lia. }
  rewrite backtrack_next; [|lia|rewrite Hrest by lia; by rewrite decide_False by lia].
  rewrite (backtrack_first _ _ _ _ (length ds - 1)); [f_equal; lia|lia|].
  rewrite Hrest by lia. rewrite decide_True by lia. f_equal. lia.
Qed.

Lemma match_plus rest :
  match_here phone_pattern (plus_sign :: rest) =
  match match_here number_pattern rest with
  | Some l => Some (S l)
  | None => None
  end.
Proof.
  unfold phone_pattern. fold number_pattern.
  change (match_here (?a :: ?rest) ?s)
    with (backtrack (match_here rest) (lo a) s (span (cls a) (hi a) s)).
  cbn [lo hi cls span]. rewrite N.eqb_refl.
  rewrite backtrack_unfold. simpl drop. cbn [Nat.ltb Nat.leb].
  rewrite drop_0.
  destruct (match_here number_pattern rest); [done|].
  apply backtrack_below. lia.
Qed.

Lemma match_not_plus c rest :
  c <> plus_sign -> match_here phone_pattern (c :: rest) = None.
Proof.
  intros Hne. unfold phone_pattern.
  change (match_here (?a :: ?rest) ?s)
    with (backtrack (match_here rest) (lo a) s (span (cls a) (hi a) s)).
  cbn [lo hi cls span].
  rewrite (proj2 (N.eqb_neq plus_sign c)) by done.
  apply backtrack_below. lia.
Qed.

Lemma search_from_unfold atoms i s :
  search_from atoms i s =
  match match_here atoms s with
  | Some l => Some (i, (i + l)%nat)
  | None =>
      match s with
      | [] => None
      | _ :: s' => search_from atoms (S i) s'
      end
  end.
Proof. by destruct s. Qed.

(** The search passes over a prefix without [+]. *)
Lemma search_skip pre : forall i s,
  plus_sign ∉ pre ->
  search_from phone_pattern i (pre ++ s)
  = search_from phone_pattern (i + length pre) s.
Proof.
  induction pre as [|c pre IH]; intros i s Hpre.
  - simpl. by rewrite Nat.add_0_r.
  - apply not_elem_of_cons in Hpre as [Hc Hpre].
    rewrite search_from_unfold. simpl app.
    rewrite match_not_plus by done.
    rewrite IH by done. f_equal. simpl. lia.
Qed.

(** A phone number as the pattern takes it: [+], one to three digits, at
    most one separator (white space or a hyphen), four to fourteen digits,
    and no further digit after them. *)
Record phone_shape (cc sep num post : str) : Prop := PhoneShape {
  shape_cc : all_in isdecimal cc;
  shape_cc_length : (1 <= length cc <= 3)%nat;
  shape_sep :
    sep = [] \/ exists c, sep = [c] /\ isspace c || (c =? hyphen) = true;
  shape_num : all_in isdecimal num;
  shape_num_length : (4 <= length num <= 14)%nat;
  shape_post : stops isdecimal post }.

Lemma search_phone_shape pre cc sep num post :
  plus_sign ∉ pre -> phone_shape cc sep num post ->
  re_search phone_pattern (pre ++ (plus_sign :: cc ++ sep ++ num) ++ post)
  = Some (length pre, length pre + length (plus_sign :: cc ++ sep ++ num))%nat.
Proof.
  intros Hpre [Hcc Hlcc Hsep Hnum Hlnum Hpost].
  unfold re_search. rewrite search_skip by done.
  assert (match_here number_pattern ((cc ++ sep ++ num) ++ post)
          = Some (length (cc ++ sep ++ num))) as Hm.
  { destruct Hsep as [->|(c & -> & Hc)].
    - rewrite app_nil_l.
      apply match_number_joined; [|rewrite length_app; lia|done].
      by apply Forall_app.
    - rewrite <- !app_assoc.
      change ([c] ++ num ++ post) with (c :: num ++ post).
      rewrite match_number_separated by done.
      rewrite !length_app. simpl length. f_equal. }
  rewrite search_from_unfold.
  change ((plus_sign :: cc ++ sep ++ num) ++ post)
    with (plus_sign :: (cc ++ sep ++ num) ++ post).
  by rewrite match_plus, Hm.
Qed.

(** *** Groups of the match *)

Lemma group0_middle pre mid post :
  group0 (pre ++ mid ++ post) (length pre, length pre + length mid)%nat = mid.
Proof.
  unfold group0. cbn [fst snd].
  replace (length pre + length mid - length pre)%nat with (length mid) by lia.
  by rewrite drop_app_length, take_app_length.
Qed.

Lemma group1_middle pre x rest post :
  group1 (pre ++ (x :: rest) ++ post)
    (length pre, length pre + length (x :: rest))%nat = rest.
Proof.
  unfold group1. cbn [fst snd length].
  replace (length pre + S (length rest) - S (length pre))%nat
    with (length rest) by lia.
  replace (S (length pre)) with (length pre + 1)%nat by lia.
  rewrite <- drop_drop, drop_app_length. simpl. rewrite drop_0.
  by rewrite take_app_length.
Qed.

(** *** Removing a character *)

Definition remove_char (x : N) (s : str) : str := filter (fun c => c <> x) s.

Lemma str_replace_char x s : str_replace [x] [] s = remove_char x s.
Proof.
  unfold str_replace, remove_char.
  induction s as [|c s IH]; [done|].
  cbn [replace_scan startswith length Nat.pred]. rewrite andb_true_r.
  destruct (N.eqb_spec x c) as [->|Hne].
  - rewrite filter_cons_False by (intros H; by apply H). apply IH.
  - rewrite filter_cons_True by congruence. by rewrite IH.
Qed.

Lemma decimal_not_blank_hyphen c :
  isdecimal c = true -> c <> blank /\ c <> hyphen.
Proof.
  intros Hd. split; intros ->; vm_compute in Hd; discriminate.
Qed.

Lemma remove_char_digits x ds :
  (x = blank \/ x = hyphen) -> all_in isdecimal ds -> remove_char x ds = ds.
Proof.
  intros Hx Hds. unfold remove_char.
  induction Hds as [|c ds Hc _ IH]; [done|].
  rewrite filter_cons_True, IH; [done|].
  destruct (decimal_not_blank_hyphen c Hc). by destruct Hx as [->| ->].
Qed.

Lemma remove_char_app x s t :
  remove_char x (s ++ t) = remove_char x s ++ remove_char x t.
Proof. apply filter_app. Qed.

(** The phone number of a match: separators other than a blank or a hyphen
    (a tab, say) stay in it. *)
Lemma phone_number_of_match cc sep num :
  all_in isdecimal cc -> all_in isdecimal num ->
  str_replace (lit "-") [] (str_replace (lit " ") [] (cc ++ sep ++ num))
  = cc ++ remove_char hyphen (remove_char blank sep) ++ num.
Proof.
  intros Hcc Hnum.
  change (lit "-") with [hyphen]. change (lit " ") with [blank].
  rewrite !str_replace_char, !remove_char_app.
  rewrite (remove_char_digits blank cc), (remove_char_digits blank num),
    (remove_char_digits hyphen cc), (remove_char_digits hyphen num); auto.
Qed.

(** *** Removing the parenthesised match *)

Lemma startswith_refl s t : startswith s (s ++ t) = true.
Proof. induction s as [|c s IH]; simpl; [done|]. by rewrite N.eqb_refl. Qed.

Lemma replace_scan_skip old new s : forall k t,
  k = length s -> replace_scan old new k (s ++ t) = replace_scan old new O t.
Proof.
  induction s as [|c s IH]; intros k t ->; simpl; [done|].
  by apply IH.
Qed.

Lemma replace_scan_occurrence c old new t :
  replace_scan (c :: old) new O ((c :: old) ++ t)
  = new ++ replace_scan (c :: old) new O t.
Proof.
  pose proof (startswith_refl (c :: old) t) as Hstart.
  simpl app in *. cbn [replace_scan]. rewrite Hstart.
  cbn [length Nat.pred]. by rewrite replace_scan_skip.
Qed.

(** In "name(+...)" with no [+] in the name, the only occurrence of
    "(+...)" is the one at the end. *)
Lemma replace_scan_name name rest :
  plus_sign ∉ name ->
  replace_scan (lparen :: plus_sign :: rest) [] O
    (name ++ lparen :: plus_sign :: rest) = name.
Proof.
  intros Hname. induction name as [|c name IH].
  - rewrite app_nil_l.
    rewrite <- (app_nil_r (lparen :: plus_sign :: rest)) at 2.
    by rewrite replace_scan_occurrence.
  - apply not_elem_of_cons in Hname as [Hc Hname].
    simpl app. cbn [replace_scan].
    assert (startswith (lparen :: plus_sign :: rest)
              (c :: name ++ lparen :: plus_sign :: rest) = false) as ->.
    { cbn [startswith]. destruct (N.eqb_spec lparen c) as [<-|]; [|done].
      destruct name as [|d name]; cbn [app startswith].
      - done.
      - apply not_elem_of_cons in Hname as [Hd _].
        by rewrite (proj2 (N.eqb_neq plus_sign d)). }
    by rewrite IH.
Qed.

Lemma fresh_contact_match sender count m :
  re_search phone_pattern sender = Some m ->
  let removed :=
    strip (str_replace (lit "(" ++ group0 sender m ++ lit ")") [] sender) in
  let phone :=
    str_replace (lit "-") [] (str_replace (lit " ") [] (group1 sender m)) in
  fresh_contact sender count =
  Contact.Make (if decide (removed = []) then sender else removed) phone phone.
Proof. intros Hm. unfold fresh_contact. by rewrite Hm. Qed.

(** In a run, what [get_contact_info] returns for a sender is the contact
    built from that sender, cached or not. *)
Lemma resolved_built w sender :
  inv w -> exists count, resolved sender w = fresh_contact sender count.
Proof.
  intros [_ Hb _]. unfold resolved.
  destruct (dict_get sender (contacts w)) as [c|] eqn:Hc; [|by eexists].
  destruct (dict_get_Some_lookup _ _ _ Hc) as [i Hi].
  exists i. by eapply Hb.
Qed.

(** C2, amended.  Let a sender hold, before any other [+], a [+] followed by
    one to three digits, at most one separator (white space or a hyphen),
    and four to fourteen digits with no digit after them.  The pattern matches
    exactly that substring, and in every state of a run [get_contact_info]
    returns the contact whose phone number, and id, is the substring without
    its [+] and without a blank or hyphen separator, and whose display name is
    the sender with every "(substring)" removed and white space trimmed, or
    the raw sender when nothing is left.  When the sender is a name followed
    by the parenthesised substring, the display name is the trimmed name. *)
Theorem phone_number_extracted cfg pre cc sep num post w :
  reachable cfg w ->
  plus_sign ∉ pre ->
  phone_shape cc sep num post ->
  let matched := plus_sign :: cc ++ sep ++ num in
  let sender := pre ++ matched ++ post in
  let removed := strip (str_replace (lit "(" ++ matched ++ lit ")") [] sender) in
  let phone := cc ++ remove_char hyphen (remove_char blank sep) ++ num in
  re_search phone_pattern sender
  = Some (length pre, length pre + length matched)%nat /\
  eval (get_contact_info sender) w
  = Ok (Contact.Make (if decide (removed = []) then sender else removed)
          phone phone) /\
  (forall name, pre = name ++ [lparen] -> post = [rparen] -> removed = strip name).
Proof.
  intros Hreach Hpre Hshape matched sender removed phone.
  pose proof (search_phone_shape pre cc sep num post Hpre Hshape) as Hsearch.
  fold matched in Hsearch. fold sender in Hsearch.
  split; [done|]. split.
  - rewrite get_contact_info_resolved. f_equal.
    destruct (resolved_built w sender (reachable_inv _ _ Hreach)) as [count ->].
    rewrite (fresh_contact_match _ _ _ Hsearch).
    subst removed phone sender matched.
    rewrite group0_middle, group1_middle.
    rewrite phone_number_of_match by apply Hshape.
    done.
  - intros name -> ->. subst removed sender matched. f_equal.
    apply not_elem_of_app in Hpre as [Hname _].
    change (lit "(") with [lparen]. change (lit ")") with [rparen].
    rewrite <- !app_assoc. simpl app.
    replace (name ++ lparen :: plus_sign :: cc ++ sep ++ num ++ [rparen])
      with (name ++ lparen :: plus_sign :: (cc ++ sep ++ num) ++ [rparen])
      by by rewrite <- !app_assoc.
    unfold str_replace. by apply replace_scan_name.
Qed.

Lemma all_in_forallb p s : forallb p s = true -> all_in p s.
Proof.
  intros H. apply Forall_forall. intros c Hc%list_elem_of_In.
  by apply (proj1 (forallb_forall p s) H).
Qed.

Lemma phone_number_extracted_witness :
  eval (get_contact_info (lit "Alice (+1 5550100)")) (init_world ∅)
  = Ok (Contact.Make (lit "Alice") (lit "15550100") (lit "15550100")).
Proof.
  assert (phone_shape (lit "1") (lit " ") (lit "5550100") (lit ")")) as Hshape.
  { split.
    - apply all_in_forallb. vm_compute. reflexivity.
    - vm_compute. lia.
    - right. exists blank. split; vm_compute; reflexivity.
    - apply all_in_forallb. vm_compute. reflexivity.
    - vm_compute. lia.
    - vm_compute. reflexivity. }
  assert (plus_sign ∉ lit "Alice (") as Hpre.
  { apply (bool_decide_unpack _). vm_compute. exact I. }
  pose proof (proj1 (proj2 (phone_number_extracted demo_config
                (lit "Alice (") (lit "1") (lit " ") (lit "5550100") (lit ")")
                (init_world ∅) (reachable_init _ ∅) Hpre Hshape))) as Hrun.
  vm_compute in Hrun. vm_compute. exact Hrun.
Defined.

(** C2 as stated fails: the number of "Alice (+1 555-0100)" has a hyphen
    inside its digits, [\d{4,14}] takes digits only, and the pattern matches
    nowhere.  The sender gets the placeholder branch: raw display name,
    "unknown_1". *)
Lemma hyphenated_number_not_extracted :
  re_search phone_pattern (lit "Alice (+1 555-0100)") = None /\
  eval (get_contact_info (lit "Alice (+1 555-0100)")) (init_world ∅)
  = Ok (Contact.Make (lit "Alice (+1 555-0100)") (lit "unknown_1")
          (lit "unknown_1")) /\
  eval (get_contact_info (lit "Alice (+1 555-0100)")) (init_world ∅)
  <> Ok (Contact.Make (lit "Alice") (lit "15550100") (lit "15550100")).
Proof.
  split; [vm_compute; reflexivity|].
  split; [vm_compute; reflexivity|].
  vm_compute. discriminate.
Qed.


(** * More of the forwarder *)

(** ** What a match of the phone pattern looks like *)

Lemma span_bound p : forall n s,
  (span p n s <= n)%nat /\ (span p n s <= length s)%nat /\
  all_in p (take (span p n s) s).
Proof.
  induction n as [|n IH]; intros [|c s]; simpl;
    try (repeat split; [lia|lia|constructor]).
  destruct (p c) eqn:Hc; simpl; [|repeat split; [lia|lia|constructor]].
  destruct (IH s) as (H1 & H2 & H3).
  repeat split; [lia|lia|by constructor].
Qed.

Lemma all_in_take p m n s :
  (m <= n)%nat -> all_in p (take n s) -> all_in p (take m s).
Proof.
  intros Hle Hall. rewrite <- (Nat.min_l m n), <- take_take by done.
  by apply Forall_take.
Qed.

Lemma backtrack_Some k lo s : forall n r,
  backtrack k lo s n = Some r ->
  exists m l, (lo <= m <= n)%nat /\ k (drop m s) = Some l /\ r = (m + l)%nat.
Proof.
  induction n as [|n IH]; intros r; rewrite backtrack_unfold.
  - destruct (Nat.ltb_spec0 O lo) as [Hlt|Hge]; [done|].
    destruct (k (drop O s)) as [l|] eqn:Hk; [|done].
    intros [= <-]. exists O, l. repeat split; [lia|lia|done].
  - destruct (Nat.ltb_spec0 (S n) lo) as [Hlt|Hge]; [done|].
    destruct (k (drop (S n) s)) as [l|] eqn:Hk.
    + intros [= <-]. exists (S n), l. repeat split; [lia|lia|done].
    + intros H. destruct (IH _ H) as (m & l & Hm & Hkm & ->).
      exists m, l. repeat split; [lia|lia|done].
Qed.

(** The pieces of a match, one per atom of the pattern. *)
Fixpoint pieces_of (atoms : list atom) (pieces : list str) : Prop :=
  match atoms, pieces with
  | [], [] => True
  | a :: atoms', piece :: pieces' =>
      (lo a <= length piece <= hi a)%nat /\ all_in (cls a) piece /\
      pieces_of atoms' pieces'
  | _, _ => False
  end.

(** The matcher is sound: what it matches splits into one piece per atom, of
    an allowed length and made of the atom's class. *)
Lemma match_here_sound atoms : forall s l,
  match_here atoms s = Some l ->
  (l <= length s)%nat /\
  exists pieces, pieces_of atoms pieces /\ concat pieces = take l s.
Proof.
  induction atoms as [|a atoms IH]; intros s l; simpl.
  - intros [= <-]. split; [lia|]. by exists [].
  - intros H. apply backtrack_Some in H as (m & l' & Hm & Hk & ->).
    destruct (IH _ _ Hk) as (Hl' & pieces & Hp & Hcat).
    destruct (span_bound (cls a) (hi a) s) as (Hhi & Hlen & Hall).
    rewrite length_drop in Hl'.
    split; [lia|].
    exists (take m s :: pieces). split.
    + simpl. rewrite length_take. repeat split; [lia|lia| |done].
      eapply all_in_take; [|done]. lia.
    + simpl. by rewrite Hcat, take_take_drop.
Qed.

Lemma search_from_sound atoms s : forall i a b,
  search_from atoms i s = Some (a, b) ->
  exists j l,
    a = (i + j)%nat /\ b = (a + l)%nat /\ (j <= length s)%nat /\
    match_here atoms (drop j s) = Some l /\
    forall j', (j' < j)%nat -> match_here atoms (drop j' s) = None.
Proof.
  induction s as [|c s IH]; intros i a b; rewrite search_from_unfold.
  - destruct (match_here atoms []) as [l|] eqn:Hm; [|done].
    intros [= <- <-]. exists O, l. repeat split; [lia|done|done|lia].
  - destruct (match_here atoms (c :: s)) as [l|] eqn:Hm.
    + intros [= <- <-]. exists O, l. repeat split; [lia|simpl; lia|done|lia].
    + intros H. destruct (IH _ _ _ H) as (j & l & -> & -> & Hj & Hmj & Hleft).
      exists (S j), l. repeat split; [lia|simpl; lia|done|].
      intros [|j'] Hlt; [done|]. simpl. apply Hleft. lia.
Qed.

(** X1. Whenever [re.search] finds the phone pattern in a sender, the span
    it returns covers a [+], one to three decimal digits, nothing or one
    separator (white space or a hyphen) and four to fourteen decimal digits,
    and the pattern matches at no earlier position of the sender. *)
Theorem search_result_shape sender a b :
  re_search phone_pattern sender = Some (a, b) ->
  exists pre cc sep num post,
    sender = pre ++ (plus_sign :: cc ++ sep ++ num) ++ post /\
    a = length pre /\ b = (a + length (plus_sign :: cc ++ sep ++ num))%nat /\
    all_in isdecimal cc /\ (1 <= length cc <= 3)%nat /\
    (sep = [] \/ exists c, sep = [c] /\ isspace c || (c =? hyphen) = true) /\
    all_in isdecimal num /\ (4 <= length num <= 14)%nat /\
    forall j, (j < a)%nat -> match_here phone_pattern (drop j sender) = None.
Proof.
  intros H. apply search_from_sound in H as (j & l & -> & -> & Hj & Hm & Hleft).
  destruct (match_here_sound _ _ _ Hm) as (Hl & pieces & Hp & Hcat).
  destruct pieces as [|p1 [|cc [|sep [|num [|? ?]]]]]; simpl in Hp;
    try (exfalso; tauto).
  destruct Hp as (Hl1 & Hp1 & (Hlcc & Hcc & (Hlsep & Hsep & Hlnum & Hnum & _))).
  destruct p1 as [|x [|? ?]]; simpl in Hl1; try lia.
  apply Forall_singleton, N.eqb_eq in Hp1. subst x.
  simpl in Hcat. rewrite app_nil_r in Hcat.
  exists (take j sender), cc, sep, num, (drop l (drop j sender)).
  assert (length (take j sender) = j) as Hlen by (rewrite length_take; lia).
  assert (l = length (plus_sign :: cc ++ sep ++ num)) as Hmatched.
  { rewrite Hcat, length_take. lia. }
  split; [by rewrite Hcat, !take_drop|].
  split; [simpl; lia|]. split; [simpl in *; lia|].
  repeat (split; [done|]).
  split; [|repeat split; [done|lia|lia|]; intros j' Hj'; apply Hleft; lia].
  destruct sep as [|c [|? ?]]; simpl in Hlsep; [by left| |lia].
  right. exists c. split; [done|].
  exact (proj1 (Forall_singleton _ _) Hsep).
Qed.

Lemma search_result_shape_witness :
  exists pre cc sep num post,
    lit "Alice (+1 5550100)" = pre ++ (plus_sign :: cc ++ sep ++ num) ++ post /\
    (1 <= length cc <= 3)%nat /\ (4 <= length num <= 14)%nat.
Proof.
  destruct (search_result_shape (lit "Alice (+1 5550100)") 7 17
              ltac:(vm_compute; reflexivity))
    as (pre & cc & sep & num & post & Heq & _ & _ & _ & Hcc & _ & _ & Hnum & _).
  by exists pre, cc, sep, num, post.
Defined.

(** ** The characters of a phone number *)

(** What is left of the separator once blanks and hyphens are removed: nothing,
    or one white-space character that is not a blank (a tab, a no-break
    space). *)
Lemma kept_separator sep :
  (sep = [] \/ exists c, sep = [c] /\ isspace c || (c =? hyphen) = true) ->
  let kept := remove_char hyphen (remove_char blank sep) in
  (length kept <= 1)%nat /\
  Forall (fun x => isspace x = true /\ x <> blank) kept.
Proof.
  intros [->|(c & -> & Hc)]; simpl; [split; [lia|constructor]|].
  unfold remove_char.
  destruct (decide (c = blank)) as [->|Hb].
  { rewrite filter_cons_False by (intros H; by apply H).
    rewrite filter_nil. simpl. split; [lia|constructor]. }
  rewrite (filter_cons_True _ c []) by done. rewrite filter_nil.
  destruct (decide (c = hyphen)) as [->|Hh].
  { rewrite filter_cons_False by (intros H; by apply H).
    rewrite filter_nil. simpl. split; [lia|constructor]. }
  rewrite (filter_cons_True _ c []) by done. rewrite filter_nil.
  simpl. split; [lia|]. apply Forall_singleton. split; [|done].
  apply orb_true_iff in Hc as [Hs|Heq]; [done|].
  by apply N.eqb_eq in Heq.
Qed.

(** A character that a phone number can hold. *)
Definition phone_char (x : N) : Prop :=
  isdecimal x = true \/ (isspace x = true /\ x <> blank).

(** The phone number built from a match. *)
Lemma fresh_contact_phone sender count m :
  re_search phone_pattern sender = Some m ->
  let c := fresh_contact sender count in
  Contact.id c = Contact.phone_number c /\
  Forall phone_char (Contact.phone_number c) /\
  (5 <= length (Contact.phone_number c) <= 18)%nat.
Proof.
  intros Hm. rewrite (fresh_contact_match _ _ _ Hm).
  cbn [Contact.id Contact.phone_number]. split; [done|].
  destruct m as [a b].
  destruct (search_result_shape _ _ _ Hm)
    as (pre & cc & sep & num & post & -> & -> & -> & Hcc & Hlcc & Hsep & Hnum
        & Hlnum & _).
  rewrite group1_middle, phone_number_of_match by done.
  destruct (kept_separator sep Hsep) as [Hlk Hk].
  set (kept := remove_char hyphen (remove_char blank sep)) in *.
  split; [|rewrite !length_app; lia].
  apply Forall_app. split; [|apply Forall_app; split].
  - eapply Forall_impl; [exact Hcc|]. intros x Hx. by left.
  - eapply Forall_impl; [exact Hk|]. intros x Hx. by right.
  - eapply Forall_impl; [exact Hnum|]. intros x Hx. by left.
Qed.

Lemma phone_char_excludes s :
  Forall phone_char s -> (plus_sign ∉ s) /\ (blank ∉ s) /\ (hyphen ∉ s).
Proof.
  intros Hall. rewrite Forall_forall in Hall.
  repeat split; intros Hin; destruct (Hall _ Hin) as [Hd|[Hs Hb]];
    try (vm_compute in Hd; discriminate Hd);
    try (vm_compute in Hs; discriminate Hs).
  by apply Hb.
Qed.



(** X3. A sender without a [+] never yields a phone number, digits or not:
    the pattern does not match, and a first resolution gives the raw string as
    display name and a placeholder as phone number and id. *)
Theorem no_plus_no_phone_number sender w :
  plus_sign ∉ sender ->
  re_search phone_pattern sender = None /\
  (dict_get sender (contacts w) = None ->
   eval (get_contact_info sender) w
   = Ok (Contact.Make sender
           (placeholder (N.of_nat (length (contacts w)) + 1))
           (placeholder (N.of_nat (length (contacts w)) + 1)))).
Proof.
  intros Hplus.
  assert (re_search phone_pattern sender = None) as Hno.
  { unfold re_search. rewrite <- (app_nil_r sender).
    by rewrite search_skip. }
  split; [done|]. intros Hmiss.
  rewrite get_contact_info_resolved. unfold resolved. rewrite Hmiss.
  by rewrite fresh_contact_unresolved.
Qed.

Lemma no_plus_no_phone_number_witness :
  eval (get_contact_info (lit "15550100")) (init_world ∅)
  = Ok (Contact.Make (lit "15550100") (placeholder 1) (placeholder 1)).
Proof.
  apply (proj2 (no_plus_no_phone_number (lit "15550100") (init_world ∅)
                  ltac:(apply (bool_decide_unpack _); vm_compute; exact I))).
  reflexivity.
Defined.

(** ** History, formatted messages and active chats move together *)

Lemma record_text_chat_groups message_data e c w :
  chat_groups (record_text message_data e c w) =
  match default [] (Observation.text message_data) with
  | [] => chat_groups w
  | text =>
      append_at (Contact.id c)
        (format_message
           (direction_of (default false (Observation.is_outgoing message_data)))
           c (default (lit "Unknown Chat") (Observation.chat message_data)) text
           (default (now_isoformat e) (Observation.timestamp message_data)))
        (chat_groups w)
  end.
Proof.
  unfold record_text.
  destruct (default [] (Observation.text message_data)); [done|].
  simpl. by destruct (decide _).
Qed.

Lemma process_message_chat_groups cfg e message_data w :
  let c := resolved (sender_of message_data) w in
  chat_groups (exec (process_message cfg e message_data) w) =
  match default [] (Observation.text message_data) with
  | [] => chat_groups w
  | text =>
      append_at (Contact.id c)
        (format_message
           (direction_of (default false (Observation.is_outgoing message_data)))
           c (default (lit "Unknown Chat") (Observation.chat message_data)) text
           (default (now_isoformat e) (Observation.timestamp message_data)))
        (chat_groups w)
  end.
Proof.
  intros c.
  destruct (process_message_data cfg e message_data w) as [_ (_ & _ & Hg & _)].
  rewrite Hg, record_text_chat_groups. subst c. unfold sender_of.
  by destruct (get_contact_info_frame
                 (default (lit "Unknown") (Observation.sender message_data)) w)
    as (_ & -> & _).
Qed.

(** The ids under which messages are filed are ids of cached contacts; a
    history exists exactly for the active chats and is never empty; and
    [chat_groups] holds one formatted message per history record. *)
Record filed (w : world) : Prop := Filed {
  filed_active : forall k, k ∈ active_chats w <-> is_Some (message_history w !! k);
  filed_nonempty : forall k h, message_history w !! k = Some h -> h <> [];
  filed_groups : forall k,
    length <$> (chat_groups w !! k) = length <$> (message_history w !! k);
  filed_ids : forall k,
    k ∈ active_chats w ->
    exists sender c, (sender, c) ∈ contacts w /\ Contact.id c = k }.

Lemma filed_init fs : filed (init_world fs).
Proof.
  split; simpl.
  - intros k. rewrite lookup_empty. split; [by intros ?%elem_of_nil|by intros [? ?]].
  - intros k h. by rewrite lookup_empty.
  - intros k. by rewrite !lookup_empty.
  - by intros k ?%elem_of_nil.
Qed.

Lemma filed_get_contact_info sender w :
  filed w -> filed (exec (get_contact_info sender) w).
Proof.
  intros [Ha Hn Hg Hi].
  destruct (get_contact_info_frame sender w)
    as (Hh & Hc & Hact & _ & _ & _ & _ & new & Hnew).
  split; rewrite ?Hh, ?Hc, ?Hact; try done.
  intros k Hk. destruct (Hi k Hk) as (s & c & Hin & Hid).
  exists s, c. split; [|done]. rewrite Hnew. apply elem_of_app. by left.
Qed.

Lemma resolved_in_cache sender w :
  (sender, resolved sender w) ∈ contacts (exec (get_contact_info sender) w).
Proof.
  pose proof (get_contact_info_cached sender w) as H.
  apply dict_get_Some_lookup in H as [i Hi].
  by eapply list_elem_of_lookup_2.
Qed.

Lemma filed_process_message cfg e message_data w :
  filed w -> filed (exec (process_message cfg e message_data) w).
Proof.
  intros Hw.
  pose proof (filed_get_contact_info (sender_of message_data) w Hw)
    as [_ _ _ Hi1].
  destruct Hw as [Ha Hn Hg Hi].
  pose proof (process_message_history cfg e message_data w) as Hh.
  pose proof (process_message_chat_groups cfg e message_data w) as Hc.
  pose proof (process_message_active cfg e message_data w) as Hact.
  pose proof (process_message_contacts cfg e message_data w) as Hcon.
  pose proof (resolved_in_cache (sender_of message_data) w) as Hres.
  destruct (get_contact_info_frame (sender_of message_data) w)
    as (_ & _ & Hact1 & _).
  simpl in Hh, Hc, Hact. fold (sender_of message_data) in Hh, Hact.
  set (c := resolved (sender_of message_data) w) in *.
  destruct (default [] (Observation.text message_data)) as [|t text].
  { rewrite app_nil_r in Hact.
    split; rewrite ?Hh, ?Hc, ?Hact, ?Hcon; try done.
    intros k Hk. apply Hi1. by rewrite Hact1. }
  split.
  - intros k. rewrite Hh, Hact.
    destruct (decide (Contact.id c = k)) as [<-|Hne].
    + rewrite append_at_lookup. split; [by eexists|]. intros _.
      destruct (decide (Contact.id c ∈ active_chats w));
        [by rewrite app_nil_r|].
      apply elem_of_app. right. by apply list_elem_of_singleton.
    + rewrite append_at_lookup_ne by done. rewrite <- Ha.
      destruct (decide (Contact.id c ∈ active_chats w));
        [by rewrite app_nil_r|].
      rewrite elem_of_app, list_elem_of_singleton.
      split; [intros [?|Heq]; [done|by subst k]|by left].
  - intros k h. rewrite Hh.
    destruct (decide (Contact.id c = k)) as [<-|Hne].
    + rewrite append_at_lookup. intros [= <-] Heq.
      by apply app_eq_nil in Heq as [_ ?].
    + rewrite append_at_lookup_ne by done. apply Hn.
  - intros k. rewrite Hh, Hc.
    destruct (decide (Contact.id c = k)) as [<-|Hne].
    + rewrite !append_at_lookup. simpl. rewrite !length_app. simpl.
      specialize (Hg (Contact.id c)).
      destruct (chat_groups w !! Contact.id c),
        (message_history w !! Contact.id c); simpl in *; congruence.
    + rewrite !append_at_lookup_ne by done. apply Hg.
  - intros k. rewrite Hact, Hcon. intros Hk.
    apply elem_of_app in Hk as [Hk|Hk].
    + apply Hi1. by rewrite Hact1.
    + destruct (decide (Contact.id c ∈ active_chats w));
        [by apply elem_of_nil in Hk|].
      apply list_elem_of_singleton in Hk. subst k.
      by exists (sender_of message_data), c.
Qed.

Lemma reachable_filed cfg w : reachable cfg w -> filed w.
Proof.
  induction 1 as [fs|w w' _ IH Hstep]; [apply filed_init|].
  destruct Hstep; [by apply filed_process_message|by apply filed_get_contact_info].
Qed.

(** X4. In every state of a run, a contact id is among the active chats
    exactly when it has a history, no stored history is empty, and
    [chat_groups] holds, under each id, as many formatted messages as the
    history has records. *)
Theorem history_matches_active_chats cfg w :
  reachable cfg w ->
  (forall k, k ∈ active_chats w <-> is_Some (message_history w !! k)) /\
  (forall k h, message_history w !! k = Some h -> h <> []) /\
  (forall k,
     length <$> (chat_groups w !! k) = length <$> (message_history w !! k)).
Proof.
  intros Hreach. by destruct (reachable_filed _ _ Hreach).
Qed.

Lemma reachable_process cfg e message_data w :
  reachable cfg w -> reachable cfg (exec (process_message cfg e message_data) w).
Proof. intros Hw. eapply reachable_step; [done|]. apply step_process. Qed.

Lemma history_matches_active_chats_witness :
  let w := exec (process_message demo_config demo_env
                   (text_observation "m1" "Alice (+1 5550100)" "hi"))
             (init_world ∅) in
  is_Some (message_history w !! lit "15550100").
Proof.
  apply (proj1 (history_matches_active_chats demo_config _
                  (reachable_process demo_config demo_env
                     (text_observation "m1" "Alice (+1 5550100)" "hi")
                     (init_world ∅) (reachable_init _ ∅)))).
  vm_compute. apply list_elem_of_here.
Defined.

(** X5. In every state of a run, every active chat id is the id of a cached
    contact, and there are at most as many active chats as contacts: [/stats]
    never reports more active chats than contacts. *)
Theorem active_chats_are_contacts cfg w :
  reachable cfg w ->
  (forall k, k ∈ active_chats w ->
     exists sender c, (sender, c) ∈ contacts w /\ Contact.id c = k) /\
  (length (active_chats w) <= length (contacts w))%nat.
Proof.
  intros Hreach.
  destruct (reachable_filed _ _ Hreach) as [_ _ _ Hids].
  destruct (reachable_inv _ _ Hreach) as [_ _ Hnd].
  split; [done|].
  rewrite <- (length_fmap (fun sc => Contact.id (snd sc)) (contacts w)).
  apply submseteq_length, NoDup_submseteq; [done|].
  intros k Hk. destruct (Hids k Hk) as (s & c & Hin & <-).
  apply list_elem_of_fmap. by exists (s, c).
Qed.

Lemma active_chats_are_contacts_witness :
  let w := exec (process_message demo_config demo_env
                   (text_observation "m1" "Alice (+1 5550100)" "hi"))
             (init_world ∅) in
  (length (active_chats w) <= length (contacts w))%nat.
Proof.
  apply (proj2 (active_chats_are_contacts demo_config _
                  (reachable_process demo_config demo_env
                     (text_observation "m1" "Alice (+1 5550100)" "hi")
                     (init_world ∅) (reachable_init _ ∅)))).
Defined.

(** ** A run over a sequence of observations *)

(** The forwarder fed with observations one after the other, each with what
    the collaborators answer during its processing. *)
Fixpoint process_all (cfg : config) (run : list (env * Observation.t)) : M unit :=
  match run with
  | [] => ret tt
  | (e, message_data) :: rest =>
      process_message cfg e message_data ;;; process_all cfg rest
  end.

Definition has_text (message_data : Observation.t) : bool :=
  match default [] (Observation.text message_data) with
  | [] => false
  | _ :: _ => true
  end.

(** [x] added at the end of [seen] unless it is there. *)
Definition add_seen (seen : list str) (x : str) : list str :=
  if decide (x ∈ seen) then seen else seen ++ [x].

(** The distinct strings of a list, in order of first appearance. *)
Definition first_seen (l : list str) : list str := foldl add_seen [] l.

Lemma messages_processed_append k x h :
  messages_processed (append_at k x h) = S (messages_processed h).
Proof.
  unfold messages_processed, append_at.
  assert (forall (m : gmap str (list Message.t)) j1 j2 z1 z2 (y : nat),
            j1 <> j2 -> m !! j1 = Some z1 -> m !! j2 = Some z2 ->
            (y + length z2 + length z1 = y + length z1 + length z2)%nat)
    as Hcomm by (intros; lia).
  destruct (h !! k) as [v|] eqn:Hk; simpl.
  - rewrite <- insert_delete_eq.
    rewrite map_fold_insert_L; [|by apply Hcomm|by apply lookup_delete_eq].
    rewrite (map_fold_delete_L _ _ k v h); [|by apply Hcomm|done].
    rewrite length_app. simpl. lia.
  - rewrite map_fold_insert_L; [|by apply Hcomm|done]. simpl. lia.
Qed.

Lemma process_message_keys cfg e message_data w :
  (contacts (exec (process_message cfg e message_data) w)).*1
  = add_seen (contacts w).*1 (sender_of message_data).
Proof.
  rewrite process_message_contacts. fold (sender_of message_data).
  unfold add_seen, exec.
  destruct (dict_get (sender_of message_data) (contacts w)) as [c|] eqn:Hc.
  - rewrite (get_contact_info_hit _ _ c) by done. simpl.
    rewrite decide_True; [done|].
    destruct (decide (sender_of message_data ∈ (contacts w).*1)) as [|Hn];
      [done|]. apply dict_get_None in Hn. congruence.
  - rewrite get_contact_info_miss by done. simpl.
    rewrite decide_False by by apply dict_get_None.
    by rewrite fmap_app.
Qed.

Lemma process_message_counts cfg e message_data w :
  messages_processed
    (message_history (exec (process_message cfg e message_data) w))
  = (messages_processed (message_history w)
     + if has_text message_data then 1 else 0)%nat.
Proof.
  rewrite process_message_history. unfold has_text.
  destruct (default [] (Observation.text message_data)); [lia|].
  rewrite messages_processed_append. lia.
Qed.

Lemma process_all_run cfg run : forall w,
  exists w',
    process_all cfg run w = (Ok tt, w') /\
    (reachable cfg w -> reachable cfg w') /\
    messages_processed (message_history w')
    = (messages_processed (message_history w)
       + length (filter (fun eo => has_text (snd eo) = true) run))%nat /\
    (contacts w').*1
    = foldl add_seen (contacts w).*1 (map (fun eo => sender_of (snd eo)) run).
Proof.
  induction run as [|[e o] run IH]; intros w; simpl.
  - exists w. repeat split; [done|lia].
  - destruct (process_message_run cfg e o w) as (w1 & Hrun & _).
    destruct (IH w1) as (w' & Hall & Hreach & Hcount & Hkeys).
    exists w'. rewrite (bind_ok _ _ _ _ _ Hrun).
    assert (w1 = exec (process_message cfg e o) w) as Hw1
      by (unfold exec; by rewrite Hrun).
    split; [done|]. split; [|split].
    + intros Hw. apply Hreach. rewrite Hw1. by apply reachable_process.
    + rewrite Hcount, Hw1, process_message_counts.
      destruct (has_text o) eqn:Ht.
      * rewrite filter_cons_True by done. simpl. lia.
      * rewrite filter_cons_False by (simpl; congruence). lia.
    + by rewrite Hkeys, Hw1, process_message_keys.
Qed.


(** X7. After any run from a new forwarder, [/stats] replies once, with the
    number of observations that had a non-empty text as "Messages Processed"
    and the number of distinct sender strings as "Total Contacts"; failed
    sends and failed media are counted like the others. *)
Theorem stats_after_run cfg run fs page :
  let w := exec (process_all cfg run) (init_world fs) in
  let texts := length (filter (fun eo => has_text (snd eo) = true) run) in
  let senders := length (first_seen (map (fun eo => sender_of (snd eo)) run)) in
  messages_processed (message_history w) = texts /\
  length (contacts w) = senders /\
  stats_handler page w
  = (Ok tt,
     set_replies
       (replies w ++ [stats_text (length (active_chats w)) senders texts page]) w).
Proof.
  destruct (process_all_run cfg run (init_world fs))
    as (w' & Hrun & _ & Hcount & Hkeys).
  unfold exec. rewrite Hrun. simpl.
  assert (length (contacts w')
          = length (first_seen (map (fun eo => sender_of (snd eo)) run))) as Hlen.
  { unfold first_seen. simpl in Hkeys. rewrite <- Hkeys. by rewrite length_fmap. }
  simpl in Hcount. split; [done|]. split; [done|].
  unfold stats_handler. run_monad. by rewrite Hcount, Hlen.
Qed.

(** ** [/contacts], [/search] and [/chats] *)

(** One line of a listing. *)
Definition numbered_line (i : N) (contact_info : Contact.t) : str :=
  str_of_N i ++ lit ". " ++ Contact.display_name contact_info
  ++ lit " (" ++ Contact.phone_number contact_info ++ lit ")" ++ [newline].

(** The lines of a listing that starts counting at [i]. *)
Definition listing (i : N) (items : list Contact.t) : str :=
  concat (imap (fun j c => numbered_line (i + N.of_nat j) c) items).

Lemma numbered_lines_listing items : forall i acc,
  numbered_lines i items acc = acc ++ listing i items.
Proof.
  unfold listing.
  induction items as [|c items IH]; intros i acc; simpl.
  - by rewrite app_nil_r.
  - rewrite IH. rewrite N.add_0_r. unfold numbered_line at 2.
    rewrite <- !app_assoc. do 9 f_equal.
    apply imap_ext. intros j c' _. simpl. f_equal. lia.
Qed.

(** X8. [/contacts] never raises and replies exactly once, in any state: "No
    contacts yet." for an empty cache, and otherwise the header followed by
    one line per cached contact, in insertion order, numbered from 1, with
    the contact's display name and phone number.  It writes nothing else. *)
Theorem contacts_handler_lists_cache w :
  contacts_handler w
  = (Ok tt,
     set_replies
       (replies w ++
        [match contacts w with
         | [] => lit "No contacts yet."
         | _ :: _ =>
             lit "All Contacts:" ++ [newline] ++ listing 1 (map snd (contacts w))
         end]) w).
Proof.
  unfold contacts_handler. run_monad.
  destruct (contacts w) as [|kc rest]; [done|].
  unfold modify. rewrite numbered_lines_listing. by rewrite <- app_assoc.
Qed.

(** The test of [search_handler] on one contact. *)
Definition search_hit (lower : str -> str) (name : str) (c : Contact.t) : bool :=
  contains name (lower (Contact.display_name c))
  || contains name (Contact.phone_number c).

Lemma search_matches_filter lower name items : forall acc,
  search_matches lower name items acc
  = acc ++ filter (fun c => search_hit lower name c = true) (map snd items).
Proof.
  induction items as [|[k c] items IH]; intros acc; simpl.
  - by rewrite app_nil_r.
  - fold (search_hit lower name c).
    destruct (search_hit lower name c) eqn:Hhit.
    + rewrite IH, filter_cons_True by done. by rewrite <- app_assoc.
    + rewrite IH, filter_cons_False by congruence. done.
Qed.

(** X9. [/search] never raises and replies exactly once, in any state.  With
    [name] the lower-cased query, the contacts it lists are exactly the cached
    contacts whose lower-cased display name or whose phone number contains
    [name], in cache order and numbered from 1, under a header that gives
    their number; when there is none it says so. *)
Theorem search_handler_lists_hits lower query w :
  let name := lower query in
  let found :=
    filter (fun c => search_hit lower name c = true) (map snd (contacts w)) in
  search_handler lower query w
  = (Ok tt,
     set_replies
       (replies w ++
        [match found with
         | [] => lit "No contacts found matching '" ++ name ++ lit "'"
         | _ :: _ =>
             lit "Found " ++ str_of_N (N.of_nat (length found))
             ++ lit " contact(s) matching '" ++ name ++ lit "':" ++ [newline]
             ++ listing 1 found
         end]) w) /\
  (forall c,
     c ∈ found <->
     (exists sender, (sender, c) ∈ contacts w) /\ search_hit lower name c = true).
Proof.
  intros name found. split.
  - unfold search_handler. run_monad. fold name.
    rewrite search_matches_filter. simpl. fold found.
    destruct found as [|c rest]; [done|].
    rewrite numbered_lines_listing. by rewrite <- !app_assoc.
  - intros c. subst found. rewrite list_elem_of_filter, list_elem_of_fmap.
    split.
    + intros [Hhit ([s c'] & -> & Hin)]. split; [by exists s|done].
    + intros [[s Hin] Hhit]. split; [done|]. by exists (s, c).
Qed.

(** The contacts stored under the given strings, if each of them is a key of
    the cache. *)
Fixpoint stored_under (d : list (str * Contact.t)) (ids : list str)
  : option (list Contact.t) :=
  match ids with
  | [] => Some []
  | cid :: rest =>
      match dict_get cid d, stored_under d rest with
      | Some c, Some cs => Some (c :: cs)
      | _, _ => None
      end
  end.

Lemma stored_under_None d ids :
  stored_under d ids = None <-> exists cid, cid ∈ ids /\ dict_get cid d = None.
Proof.
  induction ids as [|cid ids IH]; simpl.
  - split; [done|]. by intros (? & ?%elem_of_nil & _).
  - destruct (dict_get cid d) as [c|] eqn:Hc.
    + destruct (stored_under d ids) as [cs|].
      * split; [done|]. intros (k & Hin & Hk).
        apply elem_of_cons in Hin as [->|Hin]; [congruence|].
        assert (Some cs = None) as H by (apply IH; by exists k).
        discriminate H.
      * split; [|done]. intros _.
        destruct (proj1 IH eq_refl) as (k & Hin & Hk).
        exists k. split; [by right|done].
    + split; [|done]. intros _. exists cid. split; [by left|done].
Qed.

Lemma chats_loop_stored ids : forall i acc w,
  chats_loop i ids acc w =
  match stored_under (contacts w) ids with
  | Some cs => (Ok (numbered_lines i cs acc), w)
  | None => (Raise (KeyError (lit "phone_number")), w)
  end.
Proof.
  induction ids as [|cid ids IH]; intros i acc w; simpl; [done|].
  run_monad. destruct (dict_get cid (contacts w)) as [c|] eqn:Hc; simpl; [|done].
  rewrite IH. by destruct (stored_under (contacts w) ids).
Qed.

(** X10. With at least one active chat, [/chats] looks each of the last ten
    active ids up among the keys of the contact cache, which are raw sender
    strings.  If every one is such a key, it replies once with the header and
    one numbered line per id, showing whichever contact is stored under that
    string; if one is not, it raises [KeyError] and sends nothing.  At most
    ten ids are looked up. *)
Theorem chats_handler_outcome w :
  active_chats w <> [] ->
  let ids := last_n 10 (active_chats w) in
  (length ids <= 10)%nat /\
  chats_handler w =
  match stored_under (contacts w) ids with
  | Some cs =>
      (Ok tt,
       set_replies
         (replies w ++ [lit "Recent Chats:" ++ [newline] ++ listing 1 cs]) w)
  | None => (Raise (KeyError (lit "phone_number")), w)
  end /\
  (stored_under (contacts w) ids = None <->
   exists cid, cid ∈ ids /\ dict_get cid (contacts w) = None).
Proof.
  intros Hne ids. split; [|split; [|apply stored_under_None]].
  - subst ids. unfold last_n. rewrite length_drop. lia.
  - unfold chats_handler. run_monad.
    subst ids. destruct (active_chats w) as [|a l]; [done|].
    rewrite chats_loop_stored.
    destruct (stored_under (contacts w) (last_n 10 (a :: l))); [|done].
    unfold modify. rewrite numbered_lines_listing. by rewrite <- app_assoc.
Qed.

Lemma chats_handler_outcome_witness :
  replies (exec chats_handler history_world)
  = [lit "Recent Chats:" ++ [newline]
     ++ listing 1 [Contact.Make (lit "unknown_1") (lit "unknown_1")
                     (lit "unknown_1")]].
Proof.
  pose proof (proj1 (proj2 (chats_handler_outcome history_world
                              ltac:(vm_compute; discriminate)))) as Hrun.
  unfold exec. rewrite Hrun. vm_compute. reflexivity.
Defined.

(** ** [/history] and the keys of the history *)

Lemma uint_chars_digits d : Forall (fun x => 48 <= x <= 57) (uint_chars d).
Proof. induction d; simpl; constructor; try done; lia. Qed.

Lemma placeholder_no_plus n : plus_sign ∉ placeholder n.
Proof.
  unfold placeholder. change (str_of_N n) with (uint_chars (N.to_uint n)).
  apply not_elem_of_app. split.
  - apply (bool_decide_unpack _). vm_compute. exact I.
  - intros Hin. pose proof (uint_chars_digits (N.to_uint n)) as Hd.
    rewrite Forall_forall in Hd. specialize (Hd _ Hin).
    unfold plus_sign in Hd. lia.
Qed.

(** No contact id holds a [+]. *)
Lemma fresh_contact_id_no_plus sender count :
  plus_sign ∉ Contact.id (fresh_contact sender count).
Proof.
  destruct (re_search phone_pattern sender) as [m|] eqn:Hm.
  - destruct (fresh_contact_phone sender count m Hm) as (-> & Hall & _).
    by apply phone_char_excludes.
  - rewrite fresh_contact_unresolved by done. apply placeholder_no_plus.
Qed.

Lemma cached_id_no_plus w sender c :
  inv w -> (sender, c) ∈ contacts w -> plus_sign ∉ Contact.id c.
Proof.
  intros [_ Hb _] Hin. apply list_elem_of_lookup in Hin as [i Hi].
  rewrite (Hb _ _ _ Hi). apply fresh_contact_id_no_plus.
Qed.

(** X11. In every state of a run, when the first contact that a [/history]
    query matches was cached under a sender string with a [+] in it (as is
    every contact whose phone number was extracted), the handler replies "No
    message history found", whatever was recorded for that contact: it looks
    the raw sender string up in a history that is keyed by contact id, and no
    id holds a [+]. *)
Theorem history_not_found_by_sender lower cfg contact_name w key :
  reachable cfg w ->
  find_target lower contact_name (contacts w) = Some key ->
  plus_sign ∈ key ->
  message_history w !! key = None /\
  history_handler lower cfg contact_name w
  = (Ok tt,
     set_replies
       (replies w ++ [lit "No message history found for: " ++ contact_name]) w).
Proof.
  intros Hreach Hfind Hplus.
  assert (message_history w !! key = None) as Hnone.
  { destruct (message_history w !! key) as [h|] eqn:Hh; [exfalso|done].
    destruct (reachable_filed _ _ Hreach) as [Hact _ _ Hids].
    assert (key ∈ active_chats w) as Hk by (apply Hact; by eexists).
    destruct (Hids key Hk) as (s & c & Hin & <-).
    by eapply cached_id_no_plus; [eapply reachable_inv|..]. }
  split; [done|].
  unfold history_handler. run_monad. rewrite Hfind.
  destruct key as [|a key]; [by apply elem_of_nil in Hplus|].
  by rewrite Hnone.
Qed.

Lemma history_not_found_by_sender_witness :
  let w := exec (process_message demo_config demo_env
                   (text_observation "m1" "Alice (+1 5550100)" "hi"))
             (init_world ∅) in
  message_history w !! lit "15550100"
  = Some [record_of demo_env (text_observation "m1" "Alice (+1 5550100)" "hi")]
  /\
  replies (exec (history_handler ascii_lower demo_config (lit "Alice")) w)
  = [lit "No message history found for: " ++ lit "Alice"].
Proof.
  cbv zeta. split; [vm_compute; reflexivity|].
  pose proof (proj2 (history_not_found_by_sender ascii_lower demo_config
    (lit "Alice") _ (lit "Alice (+1 5550100)")
    (reachable_process demo_config demo_env
       (text_observation "m1" "Alice (+1 5550100)" "hi")
       (init_world ∅) (reachable_init _ ∅))
    ltac:(vm_compute; reflexivity)
    ltac:(apply (bool_decide_unpack _); vm_compute; exact I))) as Hrun.
  unfold exec at 1. rewrite Hrun. vm_compute. reflexivity.
Defined.

(** ** The text stage and the Telegram client *)

Lemma text_stage_last cfg e message_data c w :
  default [] (Observation.text message_data) <> [] ->
  exists w',
    text_stage cfg e message_data c w = (Ok tt, w') /\
    last (telegram w')
    = Some (SendMessage (telegram_chat_id cfg)
              (format_message
                 (direction_of (default false (Observation.is_outgoing message_data)))
                 c (default (lit "Unknown Chat") (Observation.chat message_data))
                 (default [] (Observation.text message_data))
                 (default (now_isoformat e) (Observation.timestamp message_data))))
    /\
    last (log w')
    = Some (match send_message e with
            | Ok _ =>
                (INFO,
                 lit "Message forwarded to Telegram: "
                 ++ direction_of (default false (Observation.is_outgoing message_data))
                 ++ lit " - " ++ sender_of message_data ++ lit " - "
                 ++ py_slice (default [] (Observation.text message_data)) 0 50
                 ++ lit "...")
            | Raise x =>
                (ERROR, lit "Error forwarding message to Telegram: " ++ exn_str x)
            end).
Proof.
  intros Htext. unfold text_stage, sender_of.
  destruct (default [] (Observation.text message_data)) as [|a text]; [done|].
  run_monad.
  destruct (decide (Contact.id c ∈ active_chats w));
    destruct (send_message e) as [[]|x]; simpl; eexists;
    (split; [reflexivity|]); simpl; by rewrite !last_snoc.
Qed.

(** X12. For an observation with text, whether [send_message] succeeds or
    raises, [process_message] returns normally, the record is in the
    contact's history and the contact among the active chats (nothing is
    rolled back), the last call on the Telegram client is the [send_message]
    of the formatted text, and the last log record tells the outcome: an info
    record after a success, an error record with the exception after a
    failure. *)
Theorem send_outcome_is_logged_not_rolled_back cfg e message_data w :
  default [] (Observation.text message_data) <> [] ->
  let w' := exec (process_message cfg e message_data) w in
  let c := resolved (sender_of message_data) w in
  eval (process_message cfg e message_data) w = Ok tt /\
  message_history w' !! Contact.id c
  = Some (default [] (message_history w !! Contact.id c)
          ++ [record_of e message_data]) /\
  Contact.id c ∈ active_chats w' /\
  last (telegram w')
  = Some (SendMessage (telegram_chat_id cfg)
            (format_message
               (direction_of (default false (Observation.is_outgoing message_data)))
               c (default (lit "Unknown Chat") (Observation.chat message_data))
               (default [] (Observation.text message_data))
               (default (now_isoformat e) (Observation.timestamp message_data))))
  /\
  last (log w')
  = Some (match send_message e with
          | Ok _ =>
              (INFO,
               lit "Message forwarded to Telegram: "
               ++ direction_of (default false (Observation.is_outgoing message_data))
               ++ lit " - " ++ sender_of message_data ++ lit " - "
               ++ py_slice (default [] (Observation.text message_data)) 0 50
               ++ lit "...")
          | Raise x =>
              (ERROR, lit "Error forwarding message to Telegram: " ++ exn_str x)
          end).
Proof.
  intros Htext w' c.
  destruct (process_message_data cfg e message_data w) as [Hok _].
  split; [done|]. split; [|split].
  - subst w'. rewrite process_message_history_text by done.
    apply append_at_lookup.
  - subst w'. rewrite process_message_active. fold (sender_of message_data).
    fold c. destruct (default [] (Observation.text message_data)); [done|].
    destruct (decide (Contact.id c ∈ active_chats w)).
    + by rewrite app_nil_r.
    + apply elem_of_app. right. by apply list_elem_of_singleton.
  - pose proof (get_contact_info_resolved (sender_of message_data) w) as Hres.
    unfold eval in Hres.
    destruct (get_contact_info (sender_of message_data) w) as [r w1] eqn:Hg.
    simpl in Hres. subst r. fold c in Hg.
    destruct (media_stage_total cfg e message_data c w1) as [Hm _].
    unfold eval in Hm.
    destruct (media_stage cfg e message_data c w1) as [r w2] eqn:Hms.
    simpl in Hm. subst r.
    destruct (text_stage_last cfg e message_data c w2 Htext)
      as (w3 & Hts & Htel & Hlog).
    subst w'. unfold exec. rewrite process_message_stages.
    rewrite (bind_ok _ _ _ _ _ Hg), (bind_ok _ _ _ _ _ Hms), Hts. by simpl.
Qed.

(** Collaborators that all succeed but for [send_message]. *)
Definition env_send_message_fails : env :=
  Env (lit "2024-05-01T10:00:00") 1714557600
      (Ok tt) (Ok 200%Z) (Ok tt) (Ok tt) (Ok tt) (Ok tt)
      (Raise (External (lit "Cannot send requests while disconnected"))).

Lemma send_outcome_is_logged_not_rolled_back_witness :
  let o := text_observation "m1" "Alice (+1 5550100)" "hi" in
  let w' := exec (process_message demo_config env_send_message_fails o)
              (init_world ∅) in
  message_history w' !! lit "15550100"
  = Some [record_of env_send_message_fails o] /\
  last (log w')
  = Some (ERROR, lit "Error forwarding message to Telegram: Cannot send requests while disconnected").
Proof.
  pose proof (send_outcome_is_logged_not_rolled_back demo_config
    env_send_message_fails
    (text_observation "m1" "Alice (+1 5550100)" "hi") (init_world ∅)
    ltac:(vm_compute; discriminate)) as (_ & Hh & _ & _ & Hl).
  split.
  - vm_compute in Hh. vm_compute. exact Hh.
  - vm_compute in Hl. vm_compute. exact Hl.
Defined.

(** ** The media pipeline and the files *)

(** The name of the transient file (lines 367-368). *)
Definition temp_filename (e : env) (media_url : str) : str :=
  lit "temp_media_" ++ str_of_Z (now_timestamp e) ++ splitext_ext media_url.

Definition media_caption (c : Contact.t) (direction chat_title timestamp : str)
  : str :=
  direction ++ lit " WhatsApp Media" ++ [newline]
  ++ contact_line c ++ [newline]
  ++ [0x1f4ac] ++ lit " Chat: " ++ chat_title ++ [newline]
  ++ [0x1f552] ++ lit " Time: " ++ timestamp.

(** X13. When the download answers 200 and every collaborator succeeds,
    [download_and_send_media] makes exactly one [send_file] call, with the
    transient file and the caption, logs it, and leaves the working directory
    as it was but for the transient name, which is gone afterwards even if a
    file of that name was there before the call. *)
Theorem media_forwarded_and_removed cfg e url c dir chat ts w :
  import_aiohttp e = Ok tt -> session_get e = Ok 200%Z ->
  open_wb e = Ok tt -> write_chunks e = Ok tt ->
  send_file e = Ok tt -> os_remove e = Ok tt ->
  let w' := exec (download_and_send_media cfg e url c dir chat ts) w in
  eval (download_and_send_media cfg e url c dir chat ts) w = Ok tt /\
  files w' = files w ∖ {[temp_filename e url]} /\
  telegram w'
  = telegram w ++ [SendFile (telegram_chat_id cfg) (temp_filename e url)
                     (media_caption c dir chat ts)] /\
  log w'
  = log w ++ [(INFO, lit "Media forwarded to Telegram: " ++ dir ++ lit " - "
                     ++ Contact.display_name c)].
Proof.
  intros Hi Hs Ho Hw Hf Hr w'. subst w'.
  unfold eval, exec, download_and_send_media. run_monad.
  rewrite Hi, Hs. simpl. rewrite Ho, Hw, Hf. simpl. rewrite Hr. simpl.
  repeat split.
  fold (temp_filename e url).
  apply set_eq. intros f.
  rewrite !elem_of_difference, elem_of_union, elem_of_singleton. tauto.
Qed.

Lemma media_forwarded_and_removed_witness :
  let c := Contact.Make (lit "Alice") (lit "15550100") (lit "15550100") in
  let w := init_world {[lit "temp_media_1714557600.jpg"; lit "session.json"]} in
  files (exec (download_and_send_media demo_config demo_env
                 (lit "https://cdn.example/media/photo.jpg") c
                 (direction_of false) (lit "Alice") (lit "T")) w)
  = files w ∖ {[temp_filename demo_env (lit "https://cdn.example/media/photo.jpg")]}.
Proof.
  exact (proj1 (proj2 (media_forwarded_and_removed demo_config demo_env
    (lit "https://cdn.example/media/photo.jpg")
    (Contact.Make (lit "Alice") (lit "15550100") (lit "15550100"))
    (direction_of false) (lit "Alice") (lit "T")
    (init_world {[lit "temp_media_1714557600.jpg"; lit "session.json"]})
    eq_refl eq_refl eq_refl eq_refl eq_refl eq_refl))).
Defined.

(** X14. Whatever the collaborators do, [download_and_send_media] touches no
    file but the transient one: every other name is in the working directory
    afterwards exactly if it was before; and it makes at most one call on the
    Telegram client, the [send_file] of the transient file. *)
Theorem media_touches_one_file cfg e url c dir chat ts w :
  let w' := exec (download_and_send_media cfg e url c dir chat ts) w in
  (forall f, f <> temp_filename e url -> f ∈ files w' <-> f ∈ files w) /\
  (telegram w' = telegram w \/
   telegram w'
   = telegram w ++ [SendFile (telegram_chat_id cfg) (temp_filename e url)
                      (media_caption c dir chat ts)]).
Proof.
  unfold exec, download_and_send_media. run_monad.
  fold (temp_filename e url). fold (media_caption c dir chat ts).
  destruct (import_aiohttp e) as [[]|x0]; simpl; [|by split; [|left]].
  destruct (session_get e) as [status|x1]; simpl; [|by split; [|left]].
  destruct (status =? 200)%Z; simpl; [|by split; [|left]].
  destruct (open_wb e) as [[]|x2]; simpl; [|by split; [|left]].
  assert (forall f, f <> temp_filename e url ->
            f ∈ ({[temp_filename e url]} ∪ files w) <-> f ∈ files w) as Hadd.
  { intros f Hf. rewrite elem_of_union, elem_of_singleton. tauto. }
  destruct (write_chunks e) as [[]|x3]; simpl; [|by split; [|left]].
  destruct (send_file e) as [[]|x4]; simpl; [|by split; [|right]].
  destruct (os_remove e) as [[]|x5]; simpl; [|by split; [|right]].
  split; [|by right].
  intros f Hf.
  rewrite elem_of_difference, elem_of_union, !elem_of_singleton. tauto.
Qed.

(** X15. Only the status 200 counts as a download: any other answer, the
    other 2xx statuses included, writes no file, calls nothing on the Telegram
    client and leaves one error record with the status in the log. *)
Theorem only_status_200_is_downloaded cfg e url c dir chat ts w status :
  import_aiohttp e = Ok tt -> session_get e = Ok status -> status <> 200%Z ->
  download_and_send_media cfg e url c dir chat ts w
  = (Ok tt,
     set_log (log w ++ [(ERROR, lit "Failed to download media: HTTP "
                                ++ str_of_Z status)]) w).
Proof.
  intros Hi Hs Hne. unfold download_and_send_media. run_monad.
  rewrite Hi, Hs. simpl. by rewrite (proj2 (Z.eqb_neq _ _) Hne).
Qed.

(** Collaborators whose download answers 206 Partial Content. *)
Definition env_206 : env :=
  Env (lit "2024-05-01T10:00:00") 1714557600
      (Ok tt) (Ok 206%Z) (Ok tt) (Ok tt) (Ok tt) (Ok tt) (Ok tt).

Lemma only_status_200_is_downloaded_witness :
  let c := Contact.Make (lit "Alice") (lit "15550100") (lit "15550100") in
  download_and_send_media demo_config env_206
    (lit "https://cdn.example/media/photo.jpg") c (direction_of false)
    (lit "Alice") (lit "T") (init_world ∅)
  = (Ok tt,
     set_log [(ERROR, lit "Failed to download media: HTTP " ++ str_of_Z 206)]
       (init_world ∅)).
Proof.
  exact (only_status_200_is_downloaded demo_config env_206
    (lit "https://cdn.example/media/photo.jpg")
    (Contact.Make (lit "Alice") (lit "15550100") (lit "15550100"))
    (direction_of false) (lit "Alice") (lit "T") (init_world ∅) 206%Z
    eq_refl eq_refl ltac:(discriminate)).
Defined.

(** ** The name of the transient file *)

(** [rfind]: nothing after the position it returns is the character, and
    without an occurrence it returns the value it was started with. *)
Lemma rfind_from_spec c s : forall i last,
  let r := rfind_from c s i last in
  (r = last /\ c ∉ s) \/
  ((i <= r < i + Z.of_nat (length s))%Z /\
   c ∉ drop (S (Z.to_nat (r - i))) s).
Proof.
  induction s as [|x s IH]; intros i last; simpl.
  - left. split; [done|apply not_elem_of_nil].
  - destruct (IH (i + 1)%Z (if x =? c then i else last))
      as [[Hr Hnot]|[Hr Hnot]].
    + destruct (N.eqb_spec x c) as [->|Hne].
      * right. rewrite Hr. split; [lia|].
        replace (Z.to_nat (i - i)) with O by lia. by rewrite drop_0.
      * left. split; [done|]. apply not_elem_of_cons. by split.
    + right. split; [lia|].
      replace (Z.to_nat (rfind_from c s (i + 1) (if x =? c then i else last) - i))
        with (S (Z.to_nat (rfind_from c s (i + 1)
                             (if x =? c then i else last) - (i + 1))))
        by lia.
      done.
Qed.

Lemma not_elem_of_drop {A} (x : A) n m (l : list A) :
  (n <= m)%nat -> x ∉ drop n l -> x ∉ drop m l.
Proof.
  intros Hle Hn Hin. apply Hn.
  replace m with (n + (m - n))%nat in Hin by lia.
  rewrite <- drop_drop in Hin. by eapply subseteq_drop.
Qed.

Lemma py_slice_to_end {A} (s : list A) (i : Z) :
  (0 <= i)%Z ->
  py_slice s i (Z.of_nat (length s)) = drop (Z.to_nat i) s.
Proof.
  intros Hi. unfold py_slice, clamp_index.
  rewrite !(proj2 (Z.ltb_ge _ 0)) by lia.
  rewrite Z.min_id.
  destruct (Z.le_ge_cases i (Z.of_nat (length s))).
  - rewrite Z.min_l by lia. apply take_ge. rewrite length_drop. lia.
  - rewrite Z.min_r by lia.
    rewrite (drop_ge s (Z.to_nat i)) by lia.
    rewrite drop_ge by lia. by rewrite take_nil.
Qed.

(** The extension never holds a [/]. *)
Lemma splitext_ext_no_slash p : 47 ∉ splitext_ext p.
Proof.
  unfold splitext_ext.
  destruct (rfind 47 p <? rfind 46 p)%Z eqn:Hlt; [|apply not_elem_of_nil].
  apply Z.ltb_lt in Hlt.
  destruct (forallb _ _); [apply not_elem_of_nil|].
  pose proof (rfind_from_spec 47 p 0 (-1)) as Hsep.
  pose proof (rfind_from_spec 46 p 0 (-1)) as Hdot.
  fold (rfind 47 p) in Hsep. fold (rfind 46 p) in Hdot. simpl in Hsep, Hdot.
  assert (0 <= rfind 46 p)%Z as Hpos.
  { destruct Hdot as [[Hr _]|[Hr _]]; [|lia].
    destruct Hsep as [[Hs _]|[Hs _]]; lia. }
  rewrite py_slice_to_end by done.
  destruct Hsep as [[_ Hnot]|[Hr Hnot]].
  - intros Hin. apply Hnot. by eapply subseteq_drop.
  - eapply not_elem_of_drop; [|exact Hnot]. lia.
Qed.

Lemma str_of_Z_no_slash z : 47 ∉ str_of_Z z.
Proof.
  assert (forall n, 47 ∉ str_of_N n) as Hn.
  { intros n. change (str_of_N n) with (uint_chars (N.to_uint n)).
    intros Hin. pose proof (uint_chars_digits (N.to_uint n)) as Hd.
    rewrite Forall_forall in Hd. specialize (Hd _ Hin). lia. }
  destruct z as [|q|q].
  - change (str_of_Z 0) with (str_of_N (Z.to_N 0)). apply Hn.
  - change (str_of_Z (Z.pos q)) with (str_of_N (Z.to_N (Z.pos q))). apply Hn.
  - change (str_of_Z (Z.neg q)) with (45 :: str_of_N (N.pos q)).
    apply not_elem_of_cons. split; [done|apply Hn].
Qed.

(** X16. Whatever the media URL and the clock, the name of the transient
    file holds no [/]: the download is written into the working directory and
    nowhere else, however the URL is made up. *)
Theorem temp_file_in_working_directory e media_url :
  47 ∉ temp_filename e media_url.
Proof.
  unfold temp_filename.
  apply not_elem_of_app. split.
  - apply (bool_decide_unpack _). vm_compute. exact I.
  - apply not_elem_of_app. split;
      [apply str_of_Z_no_slash|apply splitext_ext_no_slash].
Qed.

(** ** Contacts with a phone number do not depend on the run *)

(** X17. A sender in which the phone pattern matches resolves to the same
    contact in every state of every run: its display name, phone number and id
    are computed from the sender string alone (unlike a placeholder, which
    depends on how many contacts came before). *)
Theorem phone_contact_is_stable cfg cfg' sender m w w' :
  re_search phone_pattern sender = Some m ->
  reachable cfg w -> reachable cfg' w' ->
  eval (get_contact_info sender) w = eval (get_contact_info sender) w' /\
  eval (get_contact_info sender) w = Ok (fresh_contact sender 0).
Proof.
  intros Hm Hw Hw'.
  assert (forall c v, reachable c v ->
            eval (get_contact_info sender) v = Ok (fresh_contact sender 0))
    as Hany.
  { intros c v Hv. rewrite get_contact_info_resolved.
    destruct (resolved_built v sender (reachable_inv _ _ Hv)) as [count ->].
    by rewrite !(fresh_contact_match _ _ _ Hm). }
  split; [|by eapply Hany]. by rewrite (Hany _ _ Hw), (Hany _ _ Hw').
Qed.

Lemma phone_contact_is_stable_witness :
  eval (get_contact_info (lit "Alice (+1 5550100)")) (init_world ∅)
  = eval (get_contact_info (lit "Alice (+1 5550100)")) history_world.
Proof.
  apply (proj1 (phone_contact_is_stable demo_config demo_config
                  (lit "Alice (+1 5550100)") (7, 17)%nat (init_world ∅)
                  history_world ltac:(vm_compute; reflexivity)
                  (reachable_init _ ∅)
                  (reachable_process demo_config demo_env _ _
                     (reachable_init _ ∅)))).
Defined.

(** ** Display names *)

Lemma fresh_contact_display_name sender count :
  Contact.display_name (fresh_contact sender count) = [] -> sender = [].
Proof.
  unfold fresh_contact.
  destruct (re_search phone_pattern sender) as [m|]; simpl; [|done].
  by destruct (decide _).
Qed.

(** X18. In a run, the contact of a non-empty sender string never has an
    empty display name: when removing the parenthesised number and trimming
    leaves nothing, the raw sender string is used. *)
Theorem display_name_not_empty cfg sender w :
  reachable cfg w ->
  sender <> [] ->
  exists c,
    eval (get_contact_info sender) w = Ok c /\ Contact.display_name c <> [].
Proof.
  intros Hreach Hne. exists (resolved sender w).
  split; [apply get_contact_info_resolved|].
  destruct (resolved_built w sender (reachable_inv _ _ Hreach)) as [count ->].
  intros Hempty. by apply Hne, (fresh_contact_display_name sender count).
Qed.

Lemma display_name_not_empty_witness :
  exists c,
    eval (get_contact_info (lit "(+1 5550100)")) (init_world ∅) = Ok c /\
    Contact.display_name c <> [].
Proof.
  exact (display_name_not_empty demo_config (lit "(+1 5550100)")
           (init_world ∅) (reachable_init _ ∅)
           ltac:(vm_compute; discriminate)).
Defined.

(** ** Two sender strings, one phone number *)

(** X19. Two different sender strings, both new to the cache, in which the
    pattern finds the same phone number, become two contacts with one id:
    after a text message from each, the cache has two more entries, and the
    two records stand in that order in one and the same history; the id is
    entered once among the active chats. *)
Theorem same_number_two_contacts cfg e1 e2 o1 o2 m1 m2 w :
  reachable cfg w ->
  sender_of o1 <> sender_of o2 ->
  dict_get (sender_of o1) (contacts w) = None ->
  dict_get (sender_of o2) (contacts w) = None ->
  re_search phone_pattern (sender_of o1) = Some m1 ->
  re_search phone_pattern (sender_of o2) = Some m2 ->
  Contact.phone_number (fresh_contact (sender_of o1) 0)
  = Contact.phone_number (fresh_contact (sender_of o2) 0) ->
  default [] (Observation.text o1) <> [] ->
  default [] (Observation.text o2) <> [] ->
  let w2 := exec (process_message cfg e2 o2)
              (exec (process_message cfg e1 o1) w) in
  let k := Contact.phone_number (fresh_contact (sender_of o1) 0) in
  length (contacts w2) = S (S (length (contacts w))) /\
  message_history w2 !! k
  = Some (default [] (message_history w !! k)
          ++ [record_of e1 o1; record_of e2 o2]) /\
  active_chats w2
  = active_chats w ++ (if decide (k ∈ active_chats w) then [] else [k]).
Proof.
  intros Hreach Hne Hm1 Hm2 Hs1 Hs2 Hsame Ht1 Ht2 w2 k.
  set (w1 := exec (process_message cfg e1 o1) w) in *.
  assert (forall count, fresh_contact (sender_of o1) count
                        = fresh_contact (sender_of o1) 0) as Hf1
    by (intros; by rewrite !(fresh_contact_match _ _ _ Hs1)).
  assert (forall count, fresh_contact (sender_of o2) count
                        = fresh_contact (sender_of o2) 0) as Hf2
    by (intros; by rewrite !(fresh_contact_match _ _ _ Hs2)).
  assert (forall s count mm, re_search phone_pattern s = Some mm ->
            Contact.id (fresh_contact s count)
            = Contact.phone_number (fresh_contact s count)) as Hid
    by (intros s count mm Hmm; by rewrite (fresh_contact_match _ _ _ Hmm)).
  assert (resolved (sender_of o1) w = fresh_contact (sender_of o1) 0) as Hr1.
  { unfold resolved. by rewrite Hm1, Hf1. }
  assert (contacts w1
          = contacts w ++ [(sender_of o1, fresh_contact (sender_of o1) 0)])
    as Hc1.
  { subst w1. rewrite process_message_contacts. fold (sender_of o1).
    unfold exec. rewrite get_contact_info_miss by done. simpl. by rewrite Hf1. }
  assert (dict_get (sender_of o2) (contacts w1) = None) as Hm2'.
  { rewrite Hc1, dict_get_app, Hm2. simpl. by rewrite decide_False. }
  assert (resolved (sender_of o2) w1 = fresh_contact (sender_of o2) 0) as Hr2.
  { unfold resolved. by rewrite Hm2', Hf2. }
  assert (Contact.id (resolved (sender_of o1) w) = k) as Hk1.
  { rewrite Hr1. by erewrite Hid. }
  assert (Contact.id (resolved (sender_of o2) w1) = k) as Hk2.
  { rewrite Hr2. subst k. rewrite Hsame. by erewrite Hid. }
  split; [|split].
  - subst w2. rewrite process_message_contacts. fold (sender_of o2).
    unfold exec at 1. rewrite get_contact_info_miss by done. simpl.
    rewrite length_app, Hc1, length_app. simpl. lia.
  - subst w2. rewrite process_message_history_text by done.
    rewrite Hk2, append_at_lookup.
    subst w1. rewrite process_message_history_text by done.
    rewrite Hk1, append_at_lookup. simpl. by rewrite <- app_assoc.
  - subst w2. rewrite process_message_active. fold (sender_of o2).
    rewrite Hk2.
    assert (active_chats w1
            = active_chats w ++ (if decide (k ∈ active_chats w) then [] else [k]))
      as Ha1.
    { subst w1. rewrite process_message_active. fold (sender_of o1).
      rewrite Hk1. by destruct (default [] (Observation.text o1)). }
    destruct (default [] (Observation.text o2)) as [|a t]; [done|].
    rewrite decide_True; [by rewrite app_nil_r|].
    rewrite Ha1. destruct (decide (k ∈ active_chats w)).
    + by rewrite app_nil_r.
    + apply elem_of_app. right. by apply list_elem_of_singleton.
Qed.

Lemma same_number_two_contacts_witness :
  let o1 := text_observation "m1" "Alice (+1 5550100)" "hi" in
  let o2 := text_observation "m2" "Alice Work (+1-5550100)" "call me" in
  let w2 := exec (process_message demo_config demo_env o2)
              (exec (process_message demo_config demo_env o1) (init_world ∅)) in
  length (contacts w2) = 2%nat /\
  active_chats w2 = [lit "15550100"].
Proof.
  pose proof (same_number_two_contacts demo_config demo_env demo_env
    (text_observation "m1" "Alice (+1 5550100)" "hi")
    (text_observation "m2" "Alice Work (+1-5550100)" "call me")
    (7, 17)%nat (12, 22)%nat (init_world ∅) (reachable_init _ ∅)
    ltac:(vm_compute; discriminate)
    ltac:(vm_compute; reflexivity) ltac:(vm_compute; reflexivity)
    ltac:(vm_compute; reflexivity) ltac:(vm_compute; reflexivity)
    ltac:(vm_compute; reflexivity)
    ltac:(vm_compute; discriminate) ltac:(vm_compute; discriminate))
    as (Hlen & _ & Hact).
  split; [exact Hlen|]. rewrite Hact. vm_compute. reflexivity.
Defined.
